(** * Library system: the borrow/return engine and its repositories

    A shallow embedding of [models/book.py], [models/user.py] and
    [models/borrow.py].  The three repositories talk to a wide-column store
    through a shared session; the store is modelled here as eight finite maps
    keyed by the primary key of each table, and the repositories as programs
    in a small state-and-exception monad over that store. *)

From stdpp Require Import base option list sorting gmap strings fin_maps.
From Stdlib Require Import ZArith Ascii Lia.

Local Open Scope Z_scope.

(** ** Python values *)

(** A nullable column is an [option]; [None] is Python's [None]. *)

(** [int(x or 0)]: a null (or zero) counter reads as [0]. *)
Definition or0 (x : option Z) : Z := default 0 x.

(** How an f-string renders a nullable text column. *)
Definition py_str (x : option string) : string := default "None" x.

(** [str.strip()] on the bytes of the text: the ASCII white space
    (tab, line feed, vertical tab, form feed, carriage return, the four
    separators 0x1c-0x1f and the space) is removed at both ends. *)
Definition is_space (a : ascii) : bool :=
  let n := N_of_ascii a in
  (((9 <=? n) && (n <=? 13)) || ((28 <=? n) && (n <=? 32)))%N.

Fixpoint lstrip (s : string) : string :=
  match s with
  | EmptyString => EmptyString
  | String a s' => if is_space a then lstrip s' else s
  end.

Definition strip (s : string) : string :=
  String.rev (lstrip (String.rev (lstrip s))).

(** ** Time

    A [datetime] is kept as the number of milliseconds since the epoch, the
    resolution at which the store keeps a timestamp column. *)
Abbreviation timestamp := Z.
Abbreviation UUID := N.

Definition DAY_MS : Z := 86400000.
Definition DATETIME_MIN : Z := -62135596800000.
Definition DATETIME_MAX : Z := 253402300799999.
Definition TIMEDELTA_MAX_DAYS : Z := 999999999.

(** ** Exceptions *)
Inductive exn : Type :=
  | DriverError (msg : string)       (* raised by [session.execute] *)
  | InvalidRequest (column : string) (* a null value for a key column *)
  | OverflowError (msg : string).    (* [timedelta] / [datetime] range *)

(** [str(e)], as interpolated in the failure messages.  Only its being
    interpolated matters below; the wording of the store's and of Python's
    own messages is indicative. *)
Definition exn_str (e : exn) : string :=
  match e with
  | DriverError msg => msg
  | InvalidRequest c => "Invalid null value in condition for column " +:+ c
  | OverflowError msg => msg
  end.

(** [now + timedelta(days=loan_days)] *)
Definition add_days (now : timestamp) (days : Z) : exn + timestamp :=
  if bool_decide (Z.abs days ≤ TIMEDELTA_MAX_DAYS) then
    let due := now + days * DAY_MS in
    if bool_decide (DATETIME_MIN ≤ due ≤ DATETIME_MAX) then inr due
    else inl (OverflowError "date value out of range")
  else inl (OverflowError "days out of range for timedelta").

(** ** The tables

    One record per table, holding its non-key columns; every non-key column
    is nullable.  The columns of a table are those its statements name. *)

(** [books_by_id], key [isbn]. *)
Record book_row := BookRow {
  title : option string;
  author : option string;
  category : option string;
  publisher : option string;
  publication_year : option Z;
  total_copies : option Z;
  available_copies : option Z;
  description : option string
}.

(** [books_by_category], key [(category, title, isbn)], and
    [books_by_author], key [(author, title, isbn)]: [other] is the author in
    the first and the category in the second. *)
Record view_row := ViewRow {
  v_other : option string;
  v_publication_year : option Z;
  v_available_copies : option Z;
  v_total_copies : option Z
}.

(** [users_by_id], key [user_id]. *)
Record user_row := UserRow {
  email : option string;
  first_name : option string;
  last_name : option string;
  phone : option string;
  address : option string;
  registration_date : option timestamp;
  total_borrows : option Z;
  active_borrows : option Z
}.

(** [users_by_email], key [email]. *)
Record email_row := EmailRow {
  e_user_id : option UUID;
  e_first_name : option string;
  e_last_name : option string;
  e_registration_date : option timestamp
}.

(** [borrows_by_user], key [(user_id, borrow_date, isbn)], and
    [borrows_by_book], key [(isbn, borrow_date, user_id)]; [user_name] is a
    column of the second only. *)
Record loan_row := LoanRow {
  l_book_title : option string;
  l_user_name : option string;
  l_status : option string;
  l_due_date : option timestamp;
  l_return_date : option timestamp
}.

(** [active_borrows_by_user], key [(user_id, borrow_date, isbn)]. *)
Record active_row := ActiveRow {
  a_book_title : option string;
  a_due_date : option timestamp
}.

(** Modelled from the spec: the primary key of each table, whose schema file
    is not part of the sources; the keys are those of the data model, and
    the ones the [WHERE] clauses of the statements spell out. *)
Record database := Database {
  books_by_id : gmap string book_row;
  books_by_category : gmap (string * string * string) view_row;
  books_by_author : gmap (string * string * string) view_row;
  users_by_id : gmap UUID user_row;
  users_by_email : gmap string email_row;
  borrows_by_user : gmap (UUID * timestamp * string) loan_row;
  borrows_by_book : gmap (string * timestamp * UUID) loan_row;
  active_borrows_by_user : gmap (UUID * timestamp * string) active_row
}.

Definition empty_db : database :=
  Database ∅ ∅ ∅ ∅ ∅ ∅ ∅ ∅.

(** Field updates. *)
Definition book_set_available (v : option Z) (r : book_row) : book_row :=
  BookRow (title r) (author r) (category r) (publisher r)
          (publication_year r) (total_copies r) v (description r).

Definition view_set_available (v : option Z) (r : view_row) : view_row :=
  ViewRow (v_other r) (v_publication_year r) v (v_total_copies r).

Definition user_set_counts (t a : option Z) (r : user_row) : user_row :=
  UserRow (email r) (first_name r) (last_name r) (phone r) (address r)
          (registration_date r) t a.

Definition loan_set_returned (st : option string) (rd : option timestamp)
    (r : loan_row) : loan_row :=
  LoanRow (l_book_title r) (l_user_name r) st (l_due_date r) rd.

Definition blank_book : book_row :=
  BookRow None None None None None None None None.
Definition blank_view : view_row := ViewRow None None None None.
Definition blank_user : user_row :=
  UserRow None None None None None None None None.
Definition blank_loan : loan_row := LoanRow None None None None None.

Definition with_books_by_id (f : gmap string book_row → gmap string book_row)
    (d : database) : database :=
  Database (f (books_by_id d)) (books_by_category d) (books_by_author d)
           (users_by_id d) (users_by_email d) (borrows_by_user d)
           (borrows_by_book d) (active_borrows_by_user d).

Definition with_books_by_category
    (f : gmap (string * string * string) view_row →
         gmap (string * string * string) view_row)
    (d : database) : database :=
  Database (books_by_id d) (f (books_by_category d)) (books_by_author d)
           (users_by_id d) (users_by_email d) (borrows_by_user d)
           (borrows_by_book d) (active_borrows_by_user d).

Definition with_books_by_author
    (f : gmap (string * string * string) view_row →
         gmap (string * string * string) view_row)
    (d : database) : database :=
  Database (books_by_id d) (books_by_category d) (f (books_by_author d))
           (users_by_id d) (users_by_email d) (borrows_by_user d)
           (borrows_by_book d) (active_borrows_by_user d).

Definition with_users_by_id (f : gmap UUID user_row → gmap UUID user_row)
    (d : database) : database :=
  Database (books_by_id d) (books_by_category d) (books_by_author d)
           (f (users_by_id d)) (users_by_email d) (borrows_by_user d)
           (borrows_by_book d) (active_borrows_by_user d).

Definition with_users_by_email
    (f : gmap string email_row → gmap string email_row)
    (d : database) : database :=
  Database (books_by_id d) (books_by_category d) (books_by_author d)
           (users_by_id d) (f (users_by_email d)) (borrows_by_user d)
           (borrows_by_book d) (active_borrows_by_user d).

Definition with_borrows_by_user
    (f : gmap (UUID * timestamp * string) loan_row →
         gmap (UUID * timestamp * string) loan_row)
    (d : database) : database :=
  Database (books_by_id d) (books_by_category d) (books_by_author d)
           (users_by_id d) (users_by_email d) (f (borrows_by_user d))
           (borrows_by_book d) (active_borrows_by_user d).

Definition with_borrows_by_book
    (f : gmap (string * timestamp * UUID) loan_row →
         gmap (string * timestamp * UUID) loan_row)
    (d : database) : database :=
  Database (books_by_id d) (books_by_category d) (books_by_author d)
           (users_by_id d) (users_by_email d) (borrows_by_user d)
           (f (borrows_by_book d)) (active_borrows_by_user d).

Definition with_active_borrows_by_user
    (f : gmap (UUID * timestamp * string) active_row →
         gmap (UUID * timestamp * string) active_row)
    (d : database) : database :=
  Database (books_by_id d) (books_by_category d) (books_by_author d)
           (users_by_id d) (users_by_email d) (borrows_by_user d)
           (borrows_by_book d) (f (active_borrows_by_user d)).

(** ** Statements

    A write statement either changes the store or is refused by it.  Both
    [INSERT] and [UPDATE] write the row whether or not the key is already
    present (none of the statements carries an [IF] condition): an [INSERT]
    that names every column replaces the row, an [UPDATE] sets the columns
    it names and leaves the others (null if the row is new). A null value
    for a key column is refused. *)
Definition statement : Type := database → exn + database.

Definition upsert `{Countable K} {V} (blank : V) (f : V → V) (k : K)
    (m : gmap K V) : gmap K V :=
  <[k := f (default blank (m !! k))]> m.

(** ** The session

    The world is the store together with the faults the environment has in
    stock for the coming write statements: [Some msg] makes the next
    statement raise, [None] (or an exhausted stock) lets it through.  Reads
    are taken to succeed. *)
Inductive outcome (A : Type) : Type :=
  | Returned (a : A)
  | Raised (e : exn).
Arguments Returned {A} a.
Arguments Raised {A} e.

Record world := World {
  db : database;
  faults : list (option string)
}.

Definition M (A : Type) : Type := world → outcome A * world.

#[export] Instance M_ret : MRet M := λ A a w, (Returned a, w).

#[export] Instance M_bind : MBind M := λ A B f m w,
  match m w with
  | (Returned a, w') => f a w'
  | (Raised e, w') => (Raised e, w')
  end.

Definition raise {A} (e : exn) : M A := λ w, (Raised e, w).

(** [try: body except Exception as e: handler e] *)
Definition try_except {A} (body : M A) (handler : exn → M A) : M A := λ w,
  match body w with
  | (Returned a, w') => (Returned a, w')
  | (Raised e, w') => handler e w'
  end.

(** [session.execute(stmt, params)] for a write statement. *)
Definition execute (st : statement) : M unit := λ w,
  match faults w with
  | Some msg :: fs => (Raised (DriverError msg), World (db w) fs)
  | _ =>
      match st (db w) with
      | inl e => (Raised e, World (db w) (tail (faults w)))
      | inr d => (Returned (), World d (tail (faults w)))
      end
  end.

(** [session.execute(select, params)]: what the read yields. *)
Definition query {A} (q : database → A) : M A := λ w,
  (Returned (q (db w)), w).

(** A computed value that may be out of range. *)
Definition lift_exn {A} (x : exn + A) : M A :=
  match x with inl e => raise e | inr a => mret a end.

(** ** [models/book.py] *)
Module BookRepository.

Record Book := {
  isbn : string;
  title : string;
  author : string;
  category : string;
  publisher : string;
  publication_year : Z;
  total_copies : Z;
  available_copies : Z;
  description : string
}.

Definition _ins_by_id (isbn title author category publisher : string)
    (publication_year total_copies available_copies : Z)
    (description : string) : statement := λ d,
  inr (with_books_by_id
         <[isbn := BookRow (Some title) (Some author) (Some category)
                     (Some publisher) (Some publication_year)
                     (Some total_copies) (Some available_copies)
                     (Some description)]> d).

Definition _ins_by_category (category title isbn author : string)
    (publication_year available_copies total_copies : Z) : statement := λ d,
  inr (with_books_by_category
         <[(category, title, isbn) :=
             ViewRow (Some author) (Some publication_year)
                     (Some available_copies) (Some total_copies)]> d).

Definition _ins_by_author (author title isbn category : string)
    (publication_year available_copies total_copies : Z) : statement := λ d,
  inr (with_books_by_author
         <[(author, title, isbn) :=
             ViewRow (Some category) (Some publication_year)
                     (Some available_copies) (Some total_copies)]> d).

Definition _sel_by_isbn (isbn : string) (d : database) : option book_row :=
  books_by_id d !! isbn.

Definition add_book (book : Book) : M bool :=
  try_except
    (execute (_ins_by_id (isbn book) (title book) (author book)
                (category book) (publisher book) (publication_year book)
                (total_copies book) (available_copies book)
                (description book));;
     execute (_ins_by_category (category book) (title book) (isbn book)
                (author book) (publication_year book)
                (available_copies book) (total_copies book));;
     execute (_ins_by_author (author book) (title book) (isbn book)
                (category book) (publication_year book)
                (available_copies book) (total_copies book));;
     mret true)
    (λ e, mret false).

Definition get_book_by_isbn (isbn : string) : M (option book_row) :=
  query (_sel_by_isbn isbn).

(** Modelled from the spec: the clustering order of [books_by_category]
    and [books_by_author], whose schema file is not part of the sources; a
    partition is read by ascending title, then ISBN. *)
Definition view_clustering_leb
    (r1 r2 : string * string * string * view_row) : bool :=
  String.ltb r1.1.1.2 r2.1.1.2
  || (String.eqb r1.1.1.2 r2.1.1.2 && String.leb r1.1.2 r2.1.2).

Definition view_clustering_le
    (r1 r2 : string * string * string * view_row) : Prop :=
  view_clustering_leb r1 r2 = true.

#[export] Instance view_clustering_le_dec : RelDecision view_clustering_le.
Proof. intros r1 r2. unfold view_clustering_le. apply _. Defined.

(** The rows of one partition of a view, each with its key columns. *)
Definition view_partition (p : string)
    (m : gmap (string * string * string) view_row)
    : list (string * string * string * view_row) :=
  merge_sort view_clustering_le
    (filter (λ r, r.1.1.1 = p) (map_to_list m)).

Definition _sel_by_category (category : string) (d : database)
    : list (string * string * string * view_row) :=
  view_partition category (books_by_category d).

Definition _sel_by_author (author : string) (d : database)
    : list (string * string * string * view_row) :=
  view_partition author (books_by_author d).

Definition get_books_by_category (category : string)
    : M (list (string * string * string * view_row)) :=
  query (_sel_by_category category).

Definition get_books_by_author (author : string)
    : M (list (string * string * string * view_row)) :=
  query (_sel_by_author author).

End BookRepository.

(** ** [models/user.py] *)
Module UserRepository.

Definition _ins (user_id : UUID) (email first_name last_name phone
    address : string) (registration_date : timestamp)
    (total_borrows active_borrows : Z) : statement := λ d,
  inr (with_users_by_id
         <[user_id := UserRow (Some email) (Some first_name)
                        (Some last_name) (Some phone) (Some address)
                        (Some registration_date) (Some total_borrows)
                        (Some active_borrows)]> d).

Definition _insert_user_by_email (email : string) (user_id : UUID)
    (first_name last_name : string) (registration_date : timestamp)
    : statement := λ d,
  inr (with_users_by_email
         <[email := EmailRow (Some user_id) (Some first_name)
                      (Some last_name) (Some registration_date)]> d).

Definition _sel (user_id : UUID) (d : database) : option user_row :=
  users_by_id d !! user_id.

Definition _upd_counts (total_borrows active_borrows : Z) (user_id : UUID)
    : statement := λ d,
  inr (with_users_by_id
         (upsert blank_user
            (user_set_counts (Some total_borrows) (Some active_borrows))
            user_id) d).

(** [uuid4()] and [datetime.now(timezone.utc)] are what the environment
    hands to the call: [user_id] and [registration_date]. *)
Definition create_user (user_id : UUID) (registration_date : timestamp)
    (email first_name last_name phone address : string) : M UUID :=
  try_except
    (execute (_ins user_id email first_name last_name phone address
                registration_date 0 0);;
     execute (_insert_user_by_email email user_id first_name last_name
                registration_date);;
     mret user_id)
    (λ e, raise e).

Definition get_user (user_id : UUID) : M (option user_row) :=
  query (_sel user_id).

Definition set_counts (user_id : UUID) (total_borrows active_borrows : Z)
    : M unit :=
  execute (_upd_counts total_borrows active_borrows user_id).

Definition get_user_id_by_email (email : string) : M (option UUID) :=
  row ← query (λ d, users_by_email d !! email);
  mret (match row with Some row => e_user_id row | None => None end).

End UserRepository.

(** ** [models/borrow.py] *)
Module BorrowRepository.

Record BorrowResult := {
  ok : bool;
  message : string
}.

(** *** Books *)
Definition _sel_book (isbn : string) (d : database) : option book_row :=
  books_by_id d !! isbn.

Definition _upd_book_copies (available_copies : Z) (isbn : string)
    : statement := λ d,
  inr (with_books_by_id
         (upsert blank_book (book_set_available (Some available_copies))
            isbn) d).

Definition _upd_book_cat_copies (available_copies : Z)
    (category title : option string) (isbn : string) : statement := λ d,
  match category, title with
  | None, _ => inl (InvalidRequest "category")
  | _, None => inl (InvalidRequest "title")
  | Some c, Some t =>
      inr (with_books_by_category
             (upsert blank_view
                (view_set_available (Some available_copies))
                (c, t, isbn)) d)
  end.

Definition _upd_book_author_copies (available_copies : Z)
    (author title : option string) (isbn : string) : statement := λ d,
  match author, title with
  | None, _ => inl (InvalidRequest "author")
  | _, None => inl (InvalidRequest "title")
  | Some a, Some t =>
      inr (with_books_by_author
             (upsert blank_view
                (view_set_available (Some available_copies))
                (a, t, isbn)) d)
  end.

(** *** Users *)
Definition _sel_user (user_id : UUID) (d : database) : option user_row :=
  users_by_id d !! user_id.

Definition _upd_user_counts (total_borrows active_borrows : Z)
    (user_id : UUID) : statement := λ d,
  inr (with_users_by_id
         (upsert blank_user
            (user_set_counts (Some total_borrows) (Some active_borrows))
            user_id) d).

(** *** Borrows tables *)
Definition _ins_borrow_user (user_id : UUID) (borrow_date : timestamp)
    (isbn : string) (book_title : option string) (status : string)
    (due_date : timestamp) (return_date : option timestamp)
    : statement := λ d,
  inr (with_borrows_by_user
         <[(user_id, borrow_date, isbn) :=
             LoanRow book_title None (Some status) (Some due_date)
                     return_date]> d).

Definition _ins_borrow_book (isbn : string) (borrow_date : timestamp)
    (user_id : UUID) (user_name status : string) (due_date : timestamp)
    (return_date : option timestamp) (book_title : option string)
    : statement := λ d,
  inr (with_borrows_by_book
         <[(isbn, borrow_date, user_id) :=
             LoanRow book_title (Some user_name) (Some status)
                     (Some due_date) return_date]> d).

Definition _ins_active (user_id : UUID) (borrow_date : timestamp)
    (isbn : string) (book_title : option string) (due_date : timestamp)
    : statement := λ d,
  inr (with_active_borrows_by_user
         <[(user_id, borrow_date, isbn) :=
             ActiveRow book_title (Some due_date)]> d).

Definition _del_active (user_id : UUID) (borrow_date : timestamp)
    (isbn : string) : statement := λ d,
  inr (with_active_borrows_by_user
         (delete (user_id, borrow_date, isbn)) d).

Definition _upd_borrow_user_return (status : string)
    (return_date : timestamp) (user_id : UUID) (borrow_date : timestamp)
    (isbn : string) : statement := λ d,
  inr (with_borrows_by_user
         (upsert blank_loan
            (loan_set_returned (Some status) (Some return_date))
            (user_id, borrow_date, isbn)) d).

Definition _upd_borrow_book_return (status : string)
    (return_date : timestamp) (isbn : string) (borrow_date : timestamp)
    (user_id : UUID) : statement := λ d,
  inr (with_borrows_by_book
         (upsert blank_loan
            (loan_set_returned (Some status) (Some return_date))
            (isbn, borrow_date, user_id)) d).

(** A row of the partition read [_sel_active_by_user]. *)
Record ActiveBorrow := {
  borrow_date : timestamp;
  isbn : string;
  book_title : option string;
  due_date : option timestamp
}.

(** Modelled from the spec: the clustering order of
    [active_borrows_by_user], whose schema file is not part of the
    sources; a partition is read by ascending loan-start timestamp, then
    ISBN. *)
Definition clustering_leb (r1 r2 : ActiveBorrow) : bool :=
  (borrow_date r1 <? borrow_date r2)
  || ((borrow_date r1 =? borrow_date r2)
      && String.leb (isbn r1) (isbn r2)).

Definition clustering_le (r1 r2 : ActiveBorrow) : Prop :=
  clustering_leb r1 r2 = true.

#[export] Instance clustering_le_dec : RelDecision clustering_le.
Proof. intros r1 r2. unfold clustering_le. apply _. Defined.

Definition partition_rows (user_id : UUID)
    (m : gmap (UUID * timestamp * string) active_row)
    : list ActiveBorrow :=
  omap (λ '((u, t, i), r),
          if bool_decide (u = user_id)
          then Some {| borrow_date := t; isbn := i;
                       book_title := a_book_title r;
                       due_date := a_due_date r |}
          else None)
       (map_to_list m).

Definition _sel_active_by_user (user_id : UUID) (d : database)
    : list ActiveBorrow :=
  merge_sort clustering_le (partition_rows user_id (active_borrows_by_user d)).

Definition borrow_book (now : timestamp) (user_id : UUID) (isbn : string)
    (loan_days : Z) : M BorrowResult :=
  let unavailable :=
    mret {| ok := false; message := "Aucune copie disponible" |} in
  (* 1) read the book *)
  book ← query (_sel_book isbn);
  match book with
  | None => mret {| ok := false; message := "Livre introuvable" |}
  | Some book =>
    match available_copies book with
    | None => unavailable
    | Some copies =>
      if bool_decide (copies ≤ 0) then unavailable
      else
        (* 2) read the user *)
        user ← query (_sel_user user_id);
        match user with
        | None =>
            mret {| ok := false; message := "Utilisateur introuvable" |}
        | Some user =>
          let user_name :=
            strip (py_str (first_name user) +:+ " "
                   +:+ py_str (last_name user)) in
          due ← lift_exn (add_days now loan_days);
          (* 3) the writes (best effort, no transaction) *)
          try_except
            (let new_avail := copies - 1 in
             (* the copies, in the three tables *)
             execute (_upd_book_copies new_avail isbn);;
             execute (_upd_book_cat_copies new_avail (category book)
                        (title book) isbn);;
             execute (_upd_book_author_copies new_avail (author book)
                        (title book) isbn);;
             (* the borrow history *)
             execute (_ins_borrow_user user_id now isbn (title book)
                        "BORROWED" due None);;
             execute (_ins_borrow_book isbn now user_id user_name
                        "BORROWED" due None (title book));;
             (* the active borrow *)
             execute (_ins_active user_id now isbn (title book) due);;
             (* the user's counters *)
             let total_b := or0 (total_borrows user) + 1 in
             let active_b := or0 (active_borrows user) + 1 in
             execute (_upd_user_counts total_b active_b user_id);;
             mret {| ok := true; message := "Emprunt effectué" |})
            (λ e, mret {| ok := false;
                          message := "Erreur emprunt: " +:+ exn_str e |})
        end
    end
  end.

Definition return_book (now : timestamp) (user_id : UUID) (isbn_ : string)
    : M BorrowResult :=
  (* 1) find the matching active loan in the user's partition *)
  active_rows ← query (_sel_active_by_user user_id);
  match find (λ r, bool_decide (isbn r = isbn_)) active_rows with
  | None =>
      mret {| ok := false;
              message := "Aucun emprunt actif trouvé pour ce livre" |}
  | Some match_ =>
    let borrow_date := borrow_date match_ in
    (* 2) read the book *)
    book ← query (_sel_book isbn_);
    match book with
    | None =>
        mret {| ok := false; message := "Livre introuvable (books_by_id)" |}
    | Some book =>
      (* 3) read the user *)
      user ← query (_sel_user user_id);
      match user with
      | None => mret {| ok := false; message := "Utilisateur introuvable" |}
      | Some user =>
        try_except
          (let new_avail := or0 (available_copies book) + 1 in
           let new_avail :=
             match total_copies book with
             | Some total => Z.min new_avail total
             | None => new_avail
             end in
           execute (_upd_book_copies new_avail isbn_);;
           execute (_upd_book_cat_copies new_avail (category book)
                      (title book) isbn_);;
           execute (_upd_book_author_copies new_avail (author book)
                      (title book) isbn_);;
           execute (_upd_borrow_user_return "RETURNED" now user_id
                      borrow_date isbn_);;
           execute (_upd_borrow_book_return "RETURNED" now isbn_
                      borrow_date user_id);;
           execute (_del_active user_id borrow_date isbn_);;
           let total_b := or0 (total_borrows user) in
           let active_b := Z.max 0 (or0 (active_borrows user) - 1) in
           execute (_upd_user_counts total_b active_b user_id);;
           mret {| ok := true; message := "Livre retourné" |})
          (λ e, mret {| ok := false;
                        message := "Erreur retour: " +:+ exn_str e |})
      end
    end
  end.

(** The rows, each with the [user_id] column of the partition. *)
Definition get_active_borrows_by_user (user_id : UUID)
    : M (list (UUID * ActiveBorrow)) :=
  query (λ d, (λ r, (user_id, r)) <$> _sel_active_by_user user_id d).

End BorrowRepository.

(** ** Serial callers

    The adapters ([cli/main.py], [web/app.py], [scripts/generate_data.py])
    call the engine one request after the other on the shared session.  A
    request carries the reading of the clock its call makes. *)
Inductive request : Type :=
  | Borrow (now : timestamp) (user_id : UUID) (isbn : string) (loan_days : Z)
  | Return (now : timestamp) (user_id : UUID) (isbn : string).

Definition perform (r : request) : M BorrowRepository.BorrowResult :=
  match r with
  | Borrow now user_id isbn loan_days =>
      BorrowRepository.borrow_book now user_id isbn loan_days
  | Return now user_id isbn =>
      BorrowRepository.return_book now user_id isbn
  end.

Fixpoint serve (rs : list request) (w : world)
    : list (outcome BorrowRepository.BorrowResult) * world :=
  match rs with
  | [] => ([], w)
  | r :: rs =>
      let '(o, w1) := perform r w in
      let '(os, w2) := serve rs w1 in
      (o :: os, w2)
  end.

Definition succeeded (o : outcome BorrowRepository.BorrowResult) : bool :=
  match o with
  | Returned r => BorrowRepository.ok r
  | Raised _ => false
  end.

(** A borrow starts a new loan when the key it writes in the active-loan
    table (the patron, the reading of the clock, the ISBN) is not there
    yet. *)
Definition starts_new_loan (r : request) (d : database) : bool :=
  match r with
  | Borrow now user_id isbn _ =>
      bool_decide (active_borrows_by_user d !! (user_id, now, isbn) = None)
  | Return _ _ _ => true
  end.

(** Every borrow of the sequence starts a new loan, in the store it is
    served on. *)
Fixpoint loans_are_new (rs : list request) (w : world) : bool :=
  match rs with
  | [] => true
  | r :: rs => starts_new_loan r (db w) && loans_are_new rs (perform r w).2
  end.

(** Is this request a borrow of [isbn] by [user_id]? *)
Definition borrows (user_id : UUID) (isbn : string) (r : request) : bool :=
  match r with
  | Borrow _ u i _ => bool_decide (u = user_id ∧ i = isbn)
  | Return _ _ _ => false
  end.

(** The first fault in stock for the next [n] write statements. *)
Fixpoint first_fault (n : nat) (fs : list (option string)) : option string :=
  match n, fs with
  | S n, None :: fs => first_fault n fs
  | S n, Some msg :: _ => Some msg
  | _, _ => None
  end.

(** ** State predicates *)

(** [0 ≤ available_copies ≤ total_copies] for the book [isbn]. *)
Definition copies_in_range (d : database) (isbn : string) : bool :=
  match books_by_id d !! isbn with
  | Some book =>
      match available_copies book, total_copies book with
      | Some a, Some t => bool_decide (0 ≤ a ≤ t)
      | _, _ => false
      end
  | None => false
  end.

(** The number of rows in the active-loan partition of a patron. *)
Definition active_count (d : database) (user_id : UUID) : Z :=
  Z.of_nat (length (BorrowRepository._sel_active_by_user user_id d)).

(** The patron's [active_borrows] counter is the size of the partition. *)
Definition counter_consistent (d : database) (user_id : UUID) : bool :=
  match users_by_id d !! user_id with
  | Some user =>
      bool_decide (active_borrows user = Some (active_count d user_id))
  | None => false
  end.

(** The open loans of a patron on a book. *)
Definition open_loans (d : database) (user_id : UUID) (isbn : string)
    : list BorrowRepository.ActiveBorrow :=
  filter (λ r, BorrowRepository.isbn r = isbn)
         (BorrowRepository._sel_active_by_user user_id d).

(** A view holds the book [isbn] at the key [k] and nowhere else. *)
Definition filed_at (isbn : string) (k : string * string * string)
    (m : gmap (string * string * string) view_row) : bool :=
  bool_decide
    (is_Some (m !! k) ∧ map_Forall (λ k' _, k'.2 = isbn → k' = k) m).

(** The two views file the book under the category, author and title that
    [books_by_id] has for it. *)
Definition views_agree (d : database) (isbn : string) : bool :=
  match books_by_id d !! isbn with
  | Some book =>
      match category book, author book, title book with
      | Some c, Some a, Some t =>
          filed_at isbn (c, t, isbn) (books_by_category d)
          && filed_at isbn (a, t, isbn) (books_by_author d)
      | _, _, _ => false
      end
  | None => false
  end.

(** Every row a view has for [isbn] carries [available_copies = v], and
    there is such a row. *)
Definition view_copies (isbn : string) (v : Z)
    (m : gmap (string * string * string) view_row) : bool :=
  bool_decide
    (map_Forall (λ k r, k.2 = isbn → v_available_copies r = Some v) m
     ∧ ¬ map_Forall (λ k _, k.2 ≠ isbn) m).

(** The three views carry the same [available_copies] for [isbn]. *)
Definition copies_in_sync (d : database) (isbn : string) : bool :=
  match books_by_id d !! isbn with
  | Some book =>
      match available_copies book with
      | Some v =>
          view_copies isbn v (books_by_category d)
          && view_copies isbn v (books_by_author d)
      | None => false
      end
  | None => false
  end.

Definition request_isbn (r : request) : string :=
  match r with
  | Borrow _ _ isbn _ => isbn
  | Return _ _ isbn => isbn
  end.

(** The validations of a request, all at once: a book with a copy left and
    a patron for a borrow; an open loan, the book and the patron for a
    return. *)
Definition precondition (d : database) (r : request) : bool :=
  match r with
  | Borrow _ user_id isbn _ =>
      match books_by_id d !! isbn with
      | Some book =>
          bool_decide (0 < or0 (available_copies book))
          && bool_decide (is_Some (users_by_id d !! user_id))
      | None => false
      end
  | Return _ user_id isbn =>
      bool_decide (open_loans d user_id isbn ≠ [])
      && bool_decide (is_Some (books_by_id d !! isbn))
      && bool_decide (is_Some (users_by_id d !! user_id))
  end.

(** The patron has no open loan on the book. *)
Definition no_open_loan (user_id : UUID) (isbn : string) (d : database)
    : Prop :=
  ∀ t, active_borrows_by_user d !! (user_id, t, isbn) = None.

(** A program, or a statement, keeps a property of the store, whatever
    faults it meets. *)
Definition keeps (I : database → Prop) {A} (m : M A) : Prop :=
  ∀ w, I (db w) → I (db (m w).2).

Definition statement_keeps (I : database → Prop) (st : statement) : Prop :=
  ∀ d d', I d → st d = inr d' → I d'.

(** ** Sample states

    The book and the patron of [scripts/test_borrows.py]. *)
Definition dune : BookRepository.Book := {|
  BookRepository.isbn := "978-0-123456-78-9";
  BookRepository.title := "Dune";
  BookRepository.author := "Frank Herbert";
  BookRepository.category := "Science Fiction";
  BookRepository.publisher := "Ace";
  BookRepository.publication_year := 1965;
  BookRepository.total_copies := 3;
  BookRepository.available_copies := 3;
  BookRepository.description := "Roman SF classique"
|}.

Definition reader : UUID := 7%N.
Definition other_reader : UUID := 8%N.

(** One book with its three copies on the shelf, two patrons, no loan. *)
Definition shelf : database := {|
  books_by_id :=
    {[ "978-0-123456-78-9" :=
         BookRow (Some "Dune") (Some "Frank Herbert") (Some "Science Fiction")
                 (Some "Ace") (Some 1965) (Some 3) (Some 3)
                 (Some "Roman SF classique") ]};
  books_by_category :=
    {[ ("Science Fiction", "Dune", "978-0-123456-78-9") :=
         ViewRow (Some "Frank Herbert") (Some 1965) (Some 3) (Some 3) ]};
  books_by_author :=
    {[ ("Frank Herbert", "Dune", "978-0-123456-78-9") :=
         ViewRow (Some "Science Fiction") (Some 1965) (Some 3) (Some 3) ]};
  users_by_id :=
    {[ reader :=
         UserRow (Some "noe.test.borrow@example.com") (Some "Noe")
                 (Some "BorrowTest") (Some "") (Some "") (Some 1000)
                 (Some 0) (Some 0);
       other_reader :=
         UserRow (Some "noe@example.com") (Some "Noe") (Some "Wisselmann")
                 (Some "") (Some "") (Some 1001) (Some 0) (Some 0) ]};
  users_by_email :=
    {[ "noe.test.borrow@example.com" :=
         EmailRow (Some reader) (Some "Noe") (Some "BorrowTest") (Some 1000);
       "noe@example.com" :=
         EmailRow (Some other_reader) (Some "Noe") (Some "Wisselmann")
                  (Some 1001) ]};
  borrows_by_user := ∅;
  borrows_by_book := ∅;
  active_borrows_by_user := ∅
|}.

(** The patron has borrowed the book, and the copy counters of the book row
    have since been lost (null). *)
Definition lent_null_copies : database :=
  with_books_by_id
    <[ "978-0-123456-78-9" :=
         BookRow (Some "Dune") (Some "Frank Herbert") (Some "Science Fiction")
                 (Some "Ace") (Some 1965) None None None ]>
    (db (BorrowRepository.borrow_book 2000 reader "978-0-123456-78-9" 14
           (World shelf [])).2).

(** ** Runs of a write fan-out

    The writes of an operation, one [execute] after the other, then the
    rest of the operation. *)
Definition run_plan {A} (sts : list statement) (k : M A) : M A :=
  foldr (λ st m, execute st ;; m) k sts.

(** The stores met while the statements of a fan-out are applied one by
    one, up to the first one the store refuses. *)
Fixpoint states_along (sts : list statement) (d : database)
    : list database :=
  d :: match sts with
       | [] => []
       | st :: sts =>
           match st d with
           | inr d' => states_along sts d'
           | inl _ => []
           end
       end.

(** The store once every statement has been applied. *)
Fixpoint apply_all (sts : list statement) (d : database) : exn + database :=
  match sts with
  | [] => inr d
  | st :: sts =>
      match st d with
      | inr d' => apply_all sts d'
      | inl e => inl e
      end
  end.

(** Every row of [users_by_email] names a patron that [users_by_id] has. *)
Definition emails_resolve (d : database) : Prop :=
  map_Forall
    (λ _ r, ∃ u, e_user_id r = Some u ∧ is_Some (users_by_id d !! u))
    (users_by_email d).

(** The fan-out of a borrow and of a return, as [borrow_book] and
    [return_book] issue them once their validations have passed. *)
Definition borrow_plan (now : timestamp) (user_id : UUID) (isbn : string)
    (book : book_row) (user : user_row) (copies : Z) (due : timestamp)
    : list statement :=
  [ BorrowRepository._upd_book_copies (copies - 1) isbn;
    BorrowRepository._upd_book_cat_copies (copies - 1) (category book)
      (title book) isbn;
    BorrowRepository._upd_book_author_copies (copies - 1) (author book)
      (title book) isbn;
    BorrowRepository._ins_borrow_user user_id now isbn (title book)
      "BORROWED" due None;
    BorrowRepository._ins_borrow_book isbn now user_id
      (strip (py_str (first_name user) +:+ " " +:+ py_str (last_name user)))
      "BORROWED" due None (title book);
    BorrowRepository._ins_active user_id now isbn (title book) due;
    BorrowRepository._upd_user_counts (or0 (total_borrows user) + 1)
      (or0 (active_borrows user) + 1) user_id ].

(** What a return writes to the book views. *)
Definition returned_copies (book : book_row) : Z :=
  match total_copies book with
  | Some total => Z.min (or0 (available_copies book) + 1) total
  | None => or0 (available_copies book) + 1
  end.

Definition return_plan (now : timestamp) (user_id : UUID) (isbn : string)
    (book : book_row) (user : user_row) (borrow_date : timestamp)
    : list statement :=
  [ BorrowRepository._upd_book_copies (returned_copies book) isbn;
    BorrowRepository._upd_book_cat_copies (returned_copies book)
      (category book) (title book) isbn;
    BorrowRepository._upd_book_author_copies (returned_copies book)
      (author book) (title book) isbn;
    BorrowRepository._upd_borrow_user_return "RETURNED" now user_id
      borrow_date isbn;
    BorrowRepository._upd_borrow_book_return "RETURNED" now isbn
      borrow_date user_id;
    BorrowRepository._del_active user_id borrow_date isbn;
    BorrowRepository._upd_user_counts (or0 (total_borrows user))
      (Z.max 0 (or0 (active_borrows user) - 1)) user_id ].

Definition request_user (r : request) : UUID :=
  match r with
  | Borrow _ user_id _ _ => user_id
  | Return _ user_id _ => user_id
  end.

(** The rows of the store that a request has no business with: those of
    other books and other patrons, and the email table, are the same in
    [d] and [d']. *)
Definition same_elsewhere (r : request) (d d' : database) : Prop :=
  users_by_email d' = users_by_email d
  ∧ (∀ i, i ≠ request_isbn r → books_by_id d' !! i = books_by_id d !! i)
  ∧ (∀ k, k.2 ≠ request_isbn r →
          books_by_category d' !! k = books_by_category d !! k
          ∧ books_by_author d' !! k = books_by_author d !! k)
  ∧ (∀ u, u ≠ request_user r → users_by_id d' !! u = users_by_id d !! u)
  ∧ (∀ u t i, u ≠ request_user r ∨ i ≠ request_isbn r →
          active_borrows_by_user d' !! (u, t, i)
            = active_borrows_by_user d !! (u, t, i)
          ∧ borrows_by_user d' !! (u, t, i) = borrows_by_user d !! (u, t, i)
          ∧ borrows_by_book d' !! (i, t, u) = borrows_by_book d !! (i, t, u)).

(** ** [web/app.py]

    The handlers of the forms, for a POST request.  A handler answers with
    the messages it flashes, each with its category.  [str_strip] is
    [str.strip] and [uuid_str] the text of an identifier; the handlers are
    written over them, whatever they compute. *)
Module web_app.
Section handlers.
Context (str_strip : string → string) (uuid_str : UUID → string).

(** [/users/register]; [user_id] and [now] are what [create_user] draws. *)
Definition users_register (user_id : UUID) (now : timestamp)
    (email first_name last_name : string) : M (list (string * string)) :=
  let email := str_strip email in
  let first_name := str_strip first_name in
  let last_name := str_strip last_name in
  user_id ← UserRepository.create_user user_id now email first_name
              last_name "" "";
  mret [("Utilisateur créé: " +:+ uuid_str user_id, "success")].

(** [/borrows]: borrow or return, by email and ISBN; [now] is the reading
    of the clock that the engine makes. *)
Definition borrows (now : timestamp) (action email isbn : string)
    : M (list (string * string)) :=
  let email := str_strip email in
  let isbn := str_strip isbn in
  user_id ← UserRepository.get_user_id_by_email email;
  match user_id with
  | None => mret [("Utilisateur introuvable (email)", "error")]
  | Some user_id =>
      if bool_decide (action = "borrow") then
        res ← BorrowRepository.borrow_book now user_id isbn 14;
        mret [(BorrowRepository.message res,
               if BorrowRepository.ok res then "success" else "error")]
      else if bool_decide (action = "return") then
        res ← BorrowRepository.return_book now user_id isbn;
        mret [(BorrowRepository.message res,
               if BorrowRepository.ok res then "success" else "error")]
      else mret ([] : list (string * string))
  end.

End handlers.
End web_app.

(** ** [scripts/generate_data.py]

    The generators draw their data at random; what they draw is handed to
    them here, one draw per turn of their loop. *)
Module generate_data.

(** What [generate_books] draws for a book; every copy is available at
    the start. *)
Record BookDraw := {
  isbn : string;
  title : string;
  author : string;
  category : string;
  publisher : string;
  year : Z;
  total : Z;
  desc : string
}.

Definition drawn_book (b : BookDraw) : BookRepository.Book := {|
  BookRepository.isbn := isbn b;
  BookRepository.title := title b;
  BookRepository.author := author b;
  BookRepository.category := category b;
  BookRepository.publisher := publisher b;
  BookRepository.publication_year := year b;
  BookRepository.total_copies := total b;
  BookRepository.available_copies := total b;
  BookRepository.description := desc b
|}.

Fixpoint generate_books_loop (draws : list BookDraw) (isbns : list string)
    : M (list string) :=
  match draws with
  | [] => mret isbns
  | b :: draws =>
      ok ← BookRepository.add_book (drawn_book b);
      generate_books_loop draws
        (if ok : bool then isbns ++ [isbn b] else isbns)
  end.

Definition generate_books (draws : list BookDraw) : M (list string) :=
  generate_books_loop draws [].

(** What [generate_users] and the [create_user] it calls draw for a
    patron. *)
Record UserDraw := {
  user_id : UUID;
  registration_date : timestamp;
  email : string;
  first : string;
  last : string;
  phone : string;
  address : string
}.

Fixpoint generate_users_loop (draws : list UserDraw) (user_ids : list UUID)
    : M (list UUID) :=
  match draws with
  | [] => mret user_ids
  | u :: draws =>
      uid ← UserRepository.create_user (user_id u) (registration_date u)
              (email u) (first u) (last u) (phone u) (address u);
      generate_users_loop draws (user_ids ++ [uid])
  end.

Definition generate_users (draws : list UserDraw) : M (list UUID) :=
  generate_users_loop draws [].

(** A turn of [generate_borrows]: the reading of the clock, and the patron
    and the ISBN that [choice] picks in the two lists. *)
Fixpoint generate_borrows_loop (draws : list (timestamp * UUID * string))
    (loan_days : Z) : M unit :=
  match draws with
  | [] => mret ()
  | (now, user_id, isbn) :: draws =>
      res ← BorrowRepository.borrow_book now user_id isbn loan_days;
      generate_borrows_loop draws loan_days
  end.

Definition generate_borrows (user_ids : list UUID) (isbns : list string)
    (draws : list (timestamp * UUID * string)) (loan_days : Z) : M unit :=
  if bool_decide (user_ids = [] ∨ isbns = []) then mret ()
  else generate_borrows_loop draws loan_days.

Definition main (books : list BookDraw) (users : list UserDraw)
    (borrows : list UUID → list string → list (timestamp * UUID * string))
    : M unit :=
  isbns ← generate_books books;
  user_ids ← generate_users users;
  generate_borrows user_ids isbns (borrows user_ids isbns) 14.

End generate_data.

(** ** [scripts/generate_analysis_report.py]

    The helpers that read a primary key out of the text of the schema. *)
Module generate_analysis_report.

Definition dquote : ascii := "034"%char.

(** [s.startswith(c)] and [s.endswith(c)], for a [c] of one character. *)
Definition startswith (c : ascii) (s : string) : bool :=
  match s with
  | EmptyString => false
  | String a _ => bool_decide (a = c)
  end.

Definition endswith (c : ascii) (s : string) : bool :=
  startswith c (String.rev s).

(** [s[1:-1]] *)
Definition inner (s : string) : string :=
  match s with
  | EmptyString => EmptyString
  | String _ s' =>
      match String.rev s' with
      | EmptyString => EmptyString
      | String _ r => String.rev r
      end
  end.

(** [c in s] *)
Fixpoint contains (c : ascii) (s : string) : bool :=
  match s with
  | EmptyString => false
  | String a s' => bool_decide (a = c) || contains c s'
  end.

(** [s.split(c)]: the fields between the occurrences of [c]. *)
Fixpoint split (c : ascii) (s : string) : list string :=
  match s with
  | EmptyString => [EmptyString]
  | String a s' =>
      if bool_decide (a = c) then EmptyString :: split c s'
      else match split c s' with
           | field :: fields => String a field :: fields
           | [] => [String a EmptyString]
           end
  end.

Definition _clean_ident (s : string) : string :=
  let s := strip s in
  if startswith dquote s && endswith dquote s then inner s
  else if contains "." s then default EmptyString (last (split "." s))
  else s.

(** A turn of the loop of [_split_top_level_commas], on [parts], [buf] and
    [depth]. *)
Definition split_step (st : list string * string * Z) (ch : ascii)
    : list string * string * Z :=
  let '(parts, buf, depth) := st in
  let depth :=
    if bool_decide (ch = "("%char) then depth + 1
    else if bool_decide (ch = ")"%char) then Z.max 0 (depth - 1)
    else depth in
  if bool_decide (ch = ","%char) && bool_decide (depth = 0) then
    (parts ++ [strip buf], EmptyString, depth)
  else (parts, buf +:+ String ch EmptyString, depth).

Fixpoint split_scan (s : string) (st : list string * string * Z)
    : list string * string * Z :=
  match s with
  | EmptyString => st
  | String ch s' => split_scan s' (split_step st ch)
  end.

Definition nonempty (s : string) : bool :=
  match s with EmptyString => false | String _ _ => true end.

Definition _split_top_level_commas (s : string) : list string :=
  let '(parts, buf, _) := split_scan s ([], EmptyString, 0) in
  let parts := if nonempty buf then parts ++ [strip buf] else parts in
  filter (λ p, nonempty p = true) parts.

Definition _parse_primary_key (pk_expr : string)
    : list string * list string :=
  let pk_expr := strip pk_expr in
  match _split_top_level_commas pk_expr with
  | [] => ([], [])
  | first :: rest =>
      let first := strip first in
      if startswith "("%char first && endswith ")"%char first then
        let inside := strip (inner first) in
        (_clean_ident <$> _split_top_level_commas inside,
         _clean_ident <$> rest)
      else ([_clean_ident first], _clean_ident <$> rest)
  end.

End generate_analysis_report.

(** A primary key as the schema writes it: names separated by a comma and
    white space. *)
Definition plain_char (a : ascii) : bool :=
  negb (is_space a)
  && negb (bool_decide (a ∈ ["("; ")"; ","; "."; "034"]%char)).

Fixpoint plain_chars (s : string) : bool :=
  match s with
  | EmptyString => true
  | String a s' => plain_char a && plain_chars s'
  end.

Definition plain_name (s : string) : Prop :=
  s ≠ EmptyString ∧ plain_chars s = true.

Fixpoint spaces (s : string) : bool :=
  match s with
  | EmptyString => true
  | String a s' => is_space a && spaces s'
  end.

(** [", b, c"] *)
Fixpoint more_names (sp : string) (names : list string) : string :=
  match names with
  | [] => EmptyString
  | name :: names => "," +:+ sp +:+ name +:+ more_names sp names
  end.

(** The depth that the loop of [_split_top_level_commas] has reached after
    [s], from [depth]. *)
Definition depth_after (s : string) (depth : Z) : Z :=
  (generate_analysis_report.split_scan s ([], EmptyString, depth)).2.

(** A text that begins and ends with a character that is not white
    space. *)
Definition edged (s : string) : Prop :=
  ∃ a t b u, s = String a t ∧ is_space a = false
             ∧ String.rev s = String b u ∧ is_space b = false.

(** A text without a comma and without parentheses. *)
Definition no_mark (s : string) : Prop :=
  generate_analysis_report.contains "(" s = false
  ∧ generate_analysis_report.contains ")" s = false
  ∧ generate_analysis_report.contains "," s = false.

(** One item: no comma at depth 0, the depth back to 0 at its end, and
    more than white space in it. *)
Definition item (h : string) : Prop :=
  generate_analysis_report.split_scan h ([], EmptyString, 0) = ([], h, 0)
  ∧ generate_analysis_report.nonempty (strip h) = true.

(** Every book of [books_by_id] has its copies within its total. *)
Definition all_copies_in_range (d : database) : Prop :=
  ∀ isbn, is_Some (books_by_id d !! isbn) → copies_in_range d isbn = true.

(** * Proofs *)

(** ** The monad *)
Section monad.
Context {A B : Type}.

Lemma bind_Returned (m : M A) (f : A → M B) w b w' :
  (m ≫= f) w = (Returned b, w') →
  ∃ a w1, m w = (Returned a, w1) ∧ f a w1 = (Returned b, w').
Proof.
  unfold mbind, M_bind. destruct (m w) as [[a|e] w1]; [eauto | done].
Qed.

Lemma try_except_Returned (body : M A) (h : exn → M A) w a w' :
  try_except body h w = (Returned a, w') →
  body w = (Returned a, w')
  ∨ ∃ e w1, body w = (Raised e, w1) ∧ h e w1 = (Returned a, w').
Proof.
  unfold try_except. destruct (body w) as [[a1|e] w1]; [by left | eauto].
Qed.

Lemma try_except_total (body : M A) (h : exn → A) w :
  ∃ a w', try_except body (λ e, mret (h e)) w = (Returned a, w').
Proof.
  unfold try_except. destruct (body w) as [[a|e] w1]; eauto.
Qed.
End monad.

#[local] Arguments first_fault : simpl never.

Lemma execute_Returned st w u w' :
  execute st w = (Returned u, w') →
  ∃ d, st (db w) = inr d ∧ w' = World d (tail (faults w))
       ∧ first_fault 1 (faults w) = None.
Proof.
  unfold execute. destruct w as [d fs]; simpl.
  destruct fs as [|[msg|] fs]; simpl; [|done|];
    destruct (st d) as [e|d'] eqn:Hst; intros [= <- <-]; eauto.
Qed.

Lemma first_fault_S n fs :
  first_fault 1 fs = None → first_fault n (tail fs) = None →
  first_fault (S n) fs = None.
Proof. destruct fs as [|[msg|] fs]; simpl; [by destruct n| done | done]. Qed.

Import BorrowRepository.

Ltac inv_query H :=
  let Hq := fresh "Hq" in
  apply bind_Returned in H as (? & ? & Hq & H);
  unfold query in Hq; injection Hq as <- <-.

Ltac inv_execute H :=
  let He := fresh "He" in
  let Hst := fresh "Hst" in
  let Hf := fresh "Hf" in
  apply bind_Returned in H as (? & ? & He & H);
  apply execute_Returned in He as (? & Hst & -> & Hf);
  simpl in Hst, Hf, H.

(** ** What a successful borrow has done *)
Lemma borrow_book_succeeded now u i days w o w' :
  borrow_book now u i days w = (o, w') → succeeded o = true →
  ∃ book user copies c t a due,
    books_by_id (db w) !! i = Some book
    ∧ available_copies book = Some copies ∧ 0 < copies
    ∧ users_by_id (db w) !! u = Some user
    ∧ category book = Some c ∧ title book = Some t ∧ author book = Some a
    ∧ add_days now days = inr due
    ∧ first_fault 7 (faults w) = None
    ∧ books_by_id (db w') =
        <[i := book_set_available (Some (copies - 1)) book]>
          (books_by_id (db w))
    ∧ books_by_category (db w') =
        upsert blank_view (view_set_available (Some (copies - 1))) (c, t, i)
          (books_by_category (db w))
    ∧ books_by_author (db w') =
        upsert blank_view (view_set_available (Some (copies - 1))) (a, t, i)
          (books_by_author (db w))
    ∧ users_by_id (db w') =
        <[u := user_set_counts (Some (or0 (total_borrows user) + 1))
                 (Some (or0 (active_borrows user) + 1)) user]>
          (users_by_id (db w))
    ∧ active_borrows_by_user (db w') =
        <[(u, now, i) := ActiveRow (Some t) (Some due)]>
          (active_borrows_by_user (db w)).
Proof.
  intros H Hok. destruct o as [r|e]; [|done]. simpl in Hok.
  unfold borrow_book in H. inv_query H. unfold _sel_book in H.
  destruct (books_by_id (db w) !! i) as [book|] eqn:Hbook;
    [|injection H as <- <-; done].
  destruct (available_copies book) as [copies|] eqn:Hcopies;
    [|injection H as <- <-; done].
  case_bool_decide as Hpos; [injection H as <- <-; done|].
  inv_query H. unfold _sel_user in H.
  destruct (users_by_id (db w) !! u) as [user|] eqn:Huser;
    [|injection H as <- <-; done].
  apply bind_Returned in H as (due & w1 & Hdue & H).
  destruct (add_days now days) as [e|due'] eqn:Hadd; [done|].
  injection Hdue as <- <-.
  apply try_except_Returned in H as [H|(e & w1 & _ & H)];
    [|injection H as <- <-; done].
  inv_execute H. injection Hst as <-.
  inv_execute H.
  destruct (category book) as [c|] eqn:Hc; [|done].
  destruct (title book) as [t|] eqn:Ht; [|done].
  injection Hst as <-.
  inv_execute H.
  destruct (author book) as [a|] eqn:Ha; [|done].
  injection Hst as <-.
  inv_execute H. injection Hst as <-.
  inv_execute H. injection Hst as <-.
  inv_execute H. injection Hst as <-.
  inv_execute H. injection Hst as <-.
  injection H as <- <-. simpl.
  exists book, user, copies, c, t, a, due'.
  repeat split; try done; try lia.
  - repeat (apply first_fault_S; [done|]). done.
  - unfold upsert. by rewrite Hbook.
  - unfold upsert. by rewrite Huser.
Qed.

(** ** What a successful return has done *)
Lemma return_book_succeeded now u i w o w' :
  return_book now u i w = (o, w') → succeeded o = true →
  ∃ match_ book user c t a new_avail,
    find (λ r, bool_decide (isbn r = i)) (_sel_active_by_user u (db w))
      = Some match_
    ∧ books_by_id (db w) !! i = Some book
    ∧ users_by_id (db w) !! u = Some user
    ∧ category book = Some c ∧ title book = Some t ∧ author book = Some a
    ∧ first_fault 7 (faults w) = None
    ∧ new_avail =
        match total_copies book with
        | Some total => Z.min (or0 (available_copies book) + 1) total
        | None => or0 (available_copies book) + 1
        end
    ∧ books_by_id (db w') =
        <[i := book_set_available (Some new_avail) book]> (books_by_id (db w))
    ∧ books_by_category (db w') =
        upsert blank_view (view_set_available (Some new_avail)) (c, t, i)
          (books_by_category (db w))
    ∧ books_by_author (db w') =
        upsert blank_view (view_set_available (Some new_avail)) (a, t, i)
          (books_by_author (db w))
    ∧ users_by_id (db w') =
        <[u := user_set_counts (Some (or0 (total_borrows user)))
                 (Some (Z.max 0 (or0 (active_borrows user) - 1))) user]>
          (users_by_id (db w))
    ∧ active_borrows_by_user (db w') =
        delete (u, borrow_date match_, i) (active_borrows_by_user (db w)).
Proof.
  intros H Hok. destruct o as [r|e]; [|done]. simpl in Hok.
  unfold return_book in H. inv_query H.
  destruct (find _ _) as [match_|] eqn:Hfind; [|injection H as <- <-; done].
  inv_query H. unfold _sel_book in H.
  destruct (books_by_id (db w) !! i) as [book|] eqn:Hbook;
    [|injection H as <- <-; done].
  inv_query H. unfold _sel_user in H.
  destruct (users_by_id (db w) !! u) as [user|] eqn:Huser;
    [|injection H as <- <-; done].
  apply try_except_Returned in H as [H|(e & w1 & _ & H)];
    [|injection H as <- <-; done].
  inv_execute H. injection Hst as <-.
  inv_execute H.
  destruct (category book) as [c|] eqn:Hc; [|done].
  destruct (title book) as [t|] eqn:Ht; [|done].
  injection Hst as <-.
  inv_execute H.
  destruct (author book) as [a|] eqn:Ha; [|done].
  injection Hst as <-.
  do 4 (inv_execute H; injection Hst as <-).
  injection H as <- <-. simpl.
  eexists match_, book, user, c, t, a, _.
  repeat split; try done.
  - repeat (apply first_fault_S; [done|]). done.
  - unfold upsert. by rewrite Hbook.
  - unfold upsert. by rewrite Huser.
Qed.


(** ** Invariants of the store under the repositories' programs *)
Section keeps.
Context (I : database → Prop).

Lemma keeps_mret {A} (a : A) : keeps I (mret a).
Proof. by intros w. Qed.

Lemma keeps_raise {A} e : keeps I (@raise A e).
Proof. by intros w. Qed.

Lemma keeps_query {A} (q : database → A) : keeps I (query q).
Proof. by intros w. Qed.

Lemma keeps_lift_exn {A} (x : exn + A) : keeps I (lift_exn x).
Proof. destruct x; [apply keeps_raise | apply keeps_mret]. Qed.

Lemma keeps_bind {A B} (m : M A) (f : A → M B) :
  keeps I m → (∀ a, keeps I (f a)) → keeps I (m ≫= f).
Proof.
  intros Hm Hf w HI. specialize (Hm w HI). unfold mbind, M_bind.
  destruct (m w) as [[a|e] w1]; simpl in *; [by apply Hf | done].
Qed.

Lemma keeps_try_except {A} (body : M A) (h : exn → M A) :
  keeps I body → (∀ e, keeps I (h e)) → keeps I (try_except body h).
Proof.
  intros Hm Hh w HI. specialize (Hm w HI). unfold try_except.
  destruct (body w) as [[a|e] w1]; simpl in *; [done | by apply Hh].
Qed.

Lemma keeps_execute st : statement_keeps I st → keeps I (execute st).
Proof.
  intros Hst [d fs] HI. unfold execute; simpl in *.
  destruct fs as [|[msg|] fs]; simpl; [|done|];
    destruct (st d) as [e|d'] eqn:E; simpl; eauto.
Qed.
End keeps.

Ltac keeps_steps :=
  repeat first
    [ apply keeps_mret | apply keeps_raise | apply keeps_query
    | apply keeps_lift_exn
    | apply keeps_bind; [|intros ?]
    | apply keeps_try_except; [|intros ?]
    | apply keeps_execute
    | match goal with |- keeps _ (match ?x with _ => _ end) => destruct x end
    | progress simpl ].


(** Inverting a statement that went through. *)
Ltac statement_inv H :=
  unfold _upd_book_copies, _upd_book_cat_copies, _upd_book_author_copies,
    _upd_user_counts, _ins_borrow_user, _ins_borrow_book, _ins_active,
    _del_active, _upd_borrow_user_return, _upd_borrow_book_return in H;
  repeat case_match; simplify_eq.

(** ** The partition read *)
Lemma elem_of_partition_rows r u m :
  r ∈ partition_rows u m ↔
  m !! (u, borrow_date r, isbn r)
    = Some (ActiveRow (book_title r) (due_date r)).
Proof.
  unfold partition_rows. rewrite list_elem_of_omap. split.
  - intros ([[[u' t] i] [bt dd]] & Hin & Hr).
    apply elem_of_map_to_list in Hin. case_bool_decide; simplify_eq. done.
  - intros Hm.
    exists ((u, borrow_date r, isbn r),
            ActiveRow (book_title r) (due_date r)).
    split; [by apply elem_of_map_to_list|].
    rewrite bool_decide_eq_true_2 by done. by destruct r.
Qed.

Lemma elem_of_sel_active r u d :
  r ∈ _sel_active_by_user u d ↔
  active_borrows_by_user d !! (u, borrow_date r, isbn r)
    = Some (ActiveRow (book_title r) (due_date r)).
Proof.
  unfold _sel_active_by_user.
  rewrite (merge_sort_Permutation clustering_le). apply elem_of_partition_rows.
Qed.

Lemma find_active_Some u i d r :
  find (λ r, bool_decide (isbn r = i)) (_sel_active_by_user u d) = Some r →
  isbn r = i ∧ r ∈ _sel_active_by_user u d.
Proof.
  intros [Hin Hi]%find_some. apply bool_decide_eq_true in Hi.
  by apply list_elem_of_In in Hin.
Qed.

Lemma find_active_None u i d :
  no_open_loan u i d →
  find (λ r, bool_decide (isbn r = i)) (_sel_active_by_user u d) = None.
Proof.
  intros Hno. destruct (find _ _) as [r|] eqn:Hfind; [|done].
  apply find_active_Some in Hfind as [<- Hin].
  apply elem_of_sel_active in Hin. by rewrite Hno in Hin.
Qed.

Lemma borrow_book_keeps_no_open_loan u i now u' i' days :
  ¬ (u' = u ∧ i' = i) →
  keeps (no_open_loan u i) (borrow_book now u' i' days).
Proof.
  intros Hne. unfold borrow_book. keeps_steps.
  all: intros d d' HI Hst; statement_inv Hst; try exact HI.
  intros t0; simpl. rewrite lookup_insert_ne; [apply HI | naive_solver].
Qed.

Lemma return_book_keeps_no_open_loan u i now u' i' :
  keeps (no_open_loan u i) (return_book now u' i').
Proof.
  unfold return_book. keeps_steps.
  all: intros d d' HI Hst; statement_inv Hst; try exact HI.
  intros t0; simpl. apply lookup_delete_None. right. apply HI.
Qed.

Lemma serve_keeps_no_open_loan u i rs w :
  forallb (λ r, negb (borrows u i r)) rs = true →
  no_open_loan u i (db w) → no_open_loan u i (db (serve rs w).2).
Proof.
  revert w. induction rs as [|r rs IH]; intros w Hrs Hno; [done|].
  simpl in Hrs. apply andb_true_iff in Hrs as [Hr Hrs]. simpl.
  destruct (perform r w) as [o w1] eqn:Hp.
  destruct (serve rs w1) as [os w2] eqn:Hs. simpl.
  replace w2 with (serve rs w1).2 by by rewrite Hs.
  apply IH; [done|]. replace w1 with (perform r w).2 by by rewrite Hp.
  destruct r as [now u' i' days|now u' i']; simpl.
  - apply borrow_book_keeps_no_open_loan; [|done].
    simpl in Hr. apply negb_true_iff, bool_decide_eq_false in Hr. done.
  - by apply return_book_keeps_no_open_loan.
Qed.

Lemma return_closes_single_loan now u i w o w1 :
  length (open_loans (db w) u i) = 1%nat →
  return_book now u i w = (o, w1) → succeeded o = true →
  no_open_loan u i (db w1).
Proof.
  intros Hone Hret Hok.
  apply return_book_succeeded in Hret
    as (m & book & user & c & t & a & v & Hfind & _ & _ & _ & _ & _ & _ & _
        & _ & _ & _ & _ & Hact); [|done].
  apply find_active_Some in Hfind as [Hi Hin].
  intros t0. rewrite Hact. apply lookup_delete_None.
  destruct (decide (t0 = borrow_date m)) as [->|Hne]; [by left|right].
  destruct (active_borrows_by_user (db w) !! (u, t0, i)) as [[bt dd]|] eqn:E;
    [exfalso|done].
  pose (r := {| borrow_date := t0; isbn := i; book_title := bt;
                due_date := dd |}).
  assert (r ∈ open_loans (db w) u i) as Hr.
  { apply list_elem_of_filter. split; [done|]. by apply elem_of_sel_active. }
  assert (m ∈ open_loans (db w) u i) as Hm.
  { by apply list_elem_of_filter. }
  destruct (open_loans (db w) u i) as [|x [|y l]]; simplify_eq/=.
  apply list_elem_of_singleton in Hr, Hm. apply Hne. by rewrite Hm, <-Hr.
Qed.

(** ** Counting the rows of a partition *)
Lemma partition_rows_insert u k r m :
  m !! k = None →
  length (partition_rows u (<[k := r]> m)) =
    ((if bool_decide (k.1.1 = u) then 1 else 0)
     + length (partition_rows u m))%nat.
Proof.
  intros Hk. unfold partition_rows.
  rewrite (map_to_list_insert m k r Hk). destruct k as [[u' t] i]; simpl.
  by case_bool_decide.
Qed.

Lemma partition_rows_delete u k r m :
  m !! k = Some r →
  length (partition_rows u m) =
    ((if bool_decide (k.1.1 = u) then 1 else 0)
     + length (partition_rows u (delete k m)))%nat.
Proof.
  intros Hk. unfold partition_rows.
  rewrite <-(map_to_list_delete m k r Hk). destruct k as [[u' t] i]; simpl.
  by case_bool_decide.
Qed.

Lemma active_count_partition d u :
  active_count d u
    = Z.of_nat (length (partition_rows u (active_borrows_by_user d))).
Proof.
  unfold active_count, _sel_active_by_user.
  by rewrite (merge_sort_Permutation clustering_le).
Qed.

(** ** One successful request *)
Lemma perform_counter_consistent r w o w' u :
  perform r w = (o, w') → succeeded o = true →
  counter_consistent (db w) u = true →
  starts_new_loan r (db w) = true →
  counter_consistent (db w') u = true.
Proof.
  intros Hp Hok Hc Hnew. unfold counter_consistent in *.
  destruct (users_by_id (db w) !! u) as [usr|] eqn:Husr; [|done].
  apply bool_decide_eq_true in Hc.
  destruct r as [now u' i days|now u' i]; simpl in *.
  - apply borrow_book_succeeded in Hp
      as (book & user & copies & c & t & a & due & _ & _ & _ & Huser & _ & _
          & _ & _ & _ & _ & _ & _ & Hu & Hact); [|done].
    apply bool_decide_eq_true in Hnew.
    rewrite Hu, !active_count_partition, Hact.
    rewrite (partition_rows_insert _ _ _ _ Hnew); simpl.
    destruct (decide (u' = u)) as [->|Hne].
    + rewrite lookup_insert_eq. simplify_eq. apply bool_decide_eq_true.
      simpl. rewrite Hc. simpl. rewrite active_count_partition.
      rewrite bool_decide_eq_true_2 by done. f_equal. lia.
    + rewrite lookup_insert_ne, Husr by done. apply bool_decide_eq_true.
      rewrite Hc, active_count_partition.
      by rewrite bool_decide_eq_false_2 by done.
  - apply return_book_succeeded in Hp
      as (m & book & user & c & t & a & v & Hfind & _ & Huser & _ & _ & _ & _
          & _ & _ & _ & _ & Hu & Hact); [|done].
    apply find_active_Some in Hfind as [Hi Hin]. subst i.
    apply elem_of_sel_active in Hin.
    rewrite Hu, !active_count_partition, Hact.
    pose proof (partition_rows_delete u _ _ _ Hin) as Hlen. simpl in Hlen.
    destruct (decide (u' = u)) as [->|Hne].
    + rewrite lookup_insert_eq. simplify_eq. apply bool_decide_eq_true.
      simpl. rewrite Hc. simpl. rewrite active_count_partition.
      rewrite bool_decide_eq_true_2 in Hlen by done. f_equal. lia.
    + rewrite lookup_insert_ne, Husr by done. apply bool_decide_eq_true.
      rewrite Hc, active_count_partition.
      rewrite bool_decide_eq_false_2 in Hlen by done. f_equal. lia.
Qed.

Lemma perform_copies_in_range r w o w' i :
  perform r w = (o, w') → succeeded o = true →
  copies_in_range (db w) i = true → copies_in_range (db w') i = true.
Proof.
  intros Hp Hok Hc. unfold copies_in_range in *.
  destruct (books_by_id (db w) !! i) as [bk|] eqn:Hbk; [|done].
  destruct (available_copies bk) as [av|] eqn:Hav; [|done].
  destruct (total_copies bk) as [tot|] eqn:Htot; [|done].
  apply bool_decide_eq_true in Hc.
  destruct r as [now u' i' days|now u' i']; simpl in *.
  - apply borrow_book_succeeded in Hp
      as (book & user & copies & c & t & a & due & Hbook & Hcopies & Hpos & _
          & _ & _ & _ & _ & _ & Hb & _); [|done].
    rewrite Hb. destruct (decide (i' = i)) as [->|Hne].
    + rewrite lookup_insert_eq. simplify_eq. simpl. rewrite Htot.
      apply bool_decide_eq_true. lia.
    + rewrite lookup_insert_ne, Hbk, Hav, Htot by done.
      by apply bool_decide_eq_true.
  - apply return_book_succeeded in Hp
      as (m & book & user & c & t & a & v & _ & Hbook & _ & _ & _ & _ & _
          & Hv & Hb & _); [|done].
    rewrite Hb. destruct (decide (i' = i)) as [->|Hne].
    + rewrite lookup_insert_eq. simplify_eq. simpl. rewrite Htot, Hav.
      apply bool_decide_eq_true. simpl. lia.
    + rewrite lookup_insert_ne, Hbk, Hav, Htot by done.
      by apply bool_decide_eq_true.
Qed.

(** ** The copies in the two views *)
Lemma view_copies_upsert i k v m :
  filed_at i k m = true → k.2 = i →
  view_copies i v (upsert blank_view (view_set_available (Some v)) k m) = true.
Proof.
  intros [_ Hall]%bool_decide_eq_true Hk. apply bool_decide_eq_true.
  unfold upsert. split.
  - intros k' r Hlook Hk'. destruct (decide (k = k')) as [<-|Hne].
    + rewrite lookup_insert_eq in Hlook. by simplify_eq.
    + rewrite lookup_insert_ne in Hlook by done.
      destruct Hne. symmetry. by eapply Hall.
  - intros Hnone. eapply (Hnone k); [apply lookup_insert_eq | done].
Qed.

Lemma perform_copies_in_sync r w o w' :
  perform r w = (o, w') → succeeded o = true →
  views_agree (db w) (request_isbn r) = true →
  copies_in_sync (db w') (request_isbn r) = true.
Proof.
  intros Hp Hok Hv. unfold views_agree, copies_in_sync in *.
  destruct r as [now u i days|now u i]; simpl in *.
  - apply borrow_book_succeeded in Hp
      as (book & user & copies & c & t & a & due & Hbook & _ & _ & _
          & Hc & Ht & Ha & _ & _ & -> & -> & -> & _); [|done].
    rewrite Hbook, Hc, Ha, Ht in Hv. apply andb_true_iff in Hv as [Hcat Hau].
    rewrite lookup_insert_eq. simpl. apply andb_true_iff.
    split; by apply view_copies_upsert.
  - apply return_book_succeeded in Hp
      as (m & book & user & c & t & a & v & _ & Hbook & _ & Hc & Ht & Ha & _
          & _ & -> & -> & -> & _); [|done].
    rewrite Hbook, Hc, Ha, Ht in Hv. apply andb_true_iff in Hv as [Hcat Hau].
    rewrite lookup_insert_eq. simpl. apply andb_true_iff.
    split; by apply view_copies_upsert.
Qed.


(** ** Reads and returns *)
Lemma bind_query {A B} (q : database → A) (f : A → M B) w :
  (query q ≫= f) w = f (q (db w)) w.
Proof. done. Qed.

Lemma return_book_returns now u i w :
  ∃ r w', return_book now u i w = (Returned r, w').
Proof.
  unfold return_book. rewrite bind_query.
  destruct (find _ _) as [m|]; [|by eexists _, _].
  rewrite bind_query. destruct (_sel_book i (db w)); [|by eexists _, _].
  rewrite bind_query. destruct (_sel_user u (db w)); [|by eexists _, _].
  apply (try_except_total _ (λ e, {| ok := false; message := _ |})).
Qed.

Lemma borrow_book_returns now u i days w :
  (∃ e, add_days now days = inl e)
  ∨ ∃ r w', borrow_book now u i days w = (Returned r, w').
Proof.
  destruct (add_days now days) as [e|due] eqn:Hadd; [by eauto|right].
  unfold borrow_book. rewrite bind_query.
  destruct (_sel_book i (db w)) as [book|]; [|by eexists _, _].
  destruct (available_copies book) as [copies|]; [|by eexists _, _].
  case_bool_decide; [by eexists _, _|].
  rewrite bind_query. destruct (_sel_user u (db w)); [|by eexists _, _].
  rewrite Hadd. 
  apply (try_except_total _ (λ e, {| ok := false; message := _ |})).
Qed.

Lemma open_loans_find d u i :
  open_loans d u i = [] ↔
  find (λ r, bool_decide (isbn r = i)) (_sel_active_by_user u d) = None.
Proof.
  unfold open_loans. induction (_sel_active_by_user u d) as [|r l IH]; [done|].
  simpl. rewrite filter_cons. destruct (decide (isbn r = i)) as [Hi|Hi].
  - by rewrite bool_decide_eq_true_2.
  - by rewrite bool_decide_eq_false_2.
Qed.

(** ** The validations of a borrow *)
Lemma borrow_book_no_book now u i days w :
  books_by_id (db w) !! i = None →
  borrow_book now u i days w
    = (Returned {| ok := false; message := "Livre introuvable" |}, w).
Proof.
  intros Hbook. unfold borrow_book. rewrite bind_query. unfold _sel_book.
  by rewrite Hbook.
Qed.

Lemma borrow_book_no_copies now u i days w book :
  books_by_id (db w) !! i = Some book →
  ¬ (0 < or0 (available_copies book)) →
  borrow_book now u i days w
    = (Returned {| ok := false; message := "Aucune copie disponible" |}, w).
Proof.
  intros Hbook Hno. unfold borrow_book. rewrite bind_query.
  unfold _sel_book. rewrite Hbook.
  destruct (available_copies book) as [n|]; [|done].
  simpl in Hno. by rewrite bool_decide_eq_true_2 by lia.
Qed.

Lemma borrow_book_no_user now u i days w book :
  books_by_id (db w) !! i = Some book →
  0 < or0 (available_copies book) →
  users_by_id (db w) !! u = None →
  borrow_book now u i days w
    = (Returned {| ok := false; message := "Utilisateur introuvable" |}, w).
Proof.
  intros Hbook Hpos Huser. unfold borrow_book. rewrite bind_query.
  unfold _sel_book. rewrite Hbook.
  destruct (available_copies book) as [n|]; simpl in Hpos; [|lia].
  rewrite bool_decide_eq_false_2 by lia.
  rewrite bind_query. unfold _sel_user. by rewrite Huser.
Qed.

(** ** The scenarios of the specification, run on the model *)

Example strip_user_name : strip "  Noe BorrowTest " = "Noe BorrowTest".
Proof. reflexivity. Qed.

Example due_in_two_weeks : add_days 2000 14 = inr 1209602000.
Proof. reflexivity. Qed.

Example due_out_of_range :
  add_days 2000 1000000000
    = inl (OverflowError "days out of range for timedelta").
Proof. reflexivity. Qed.

(** Adding the book of [scripts/test_borrows.py] files it in the three
    views. *)
Example add_book_files_three_views :
  let res := BookRepository.add_book dune (World empty_db []) in
  res.1 = Returned true
  ∧ books_by_id (db res.2) !! "978-0-123456-78-9"
      = books_by_id shelf !! "978-0-123456-78-9"
  ∧ books_by_category (db res.2)
      !! ("Science Fiction", "Dune", "978-0-123456-78-9")
      = Some (ViewRow (Some "Frank Herbert") (Some 1965) (Some 3) (Some 3))
  ∧ books_by_author (db res.2)
      !! ("Frank Herbert", "Dune", "978-0-123456-78-9")
      = Some (ViewRow (Some "Science Fiction") (Some 1965) (Some 3) (Some 3)).
Proof. intros; repeat apply conj; vm_compute; reflexivity. Qed.

(** Scenario 4: a patron is found by email; an unknown email is not. *)
Example lookup_by_email :
  let w := (UserRepository.create_user 9%N 2000 "e@x.com" "Eve" "Xu" "" ""
              (World shelf [])).2 in
  (UserRepository.get_user_id_by_email "e@x.com" w).1 = Returned (Some 9%N)
  ∧ (UserRepository.get_user_id_by_email "nobody@x.com" w).1 = Returned None.
Proof. intros; repeat apply conj; vm_compute; reflexivity. Qed.

(** Scenario 1: the copies go down one borrow at a time, and the borrow
    after the last copy is refused. *)
Example borrow_until_unavailable :
  let isbn_ := "978-0-123456-78-9" in
  let res :=
    serve [Borrow 2000 reader isbn_ 14; Borrow 2100 other_reader isbn_ 14;
           Borrow 2200 reader isbn_ 14; Borrow 2300 other_reader isbn_ 14]
          (World shelf []) in
  res.1 = [Returned {| ok := true; message := "Emprunt effectué" |};
           Returned {| ok := true; message := "Emprunt effectué" |};
           Returned {| ok := true; message := "Emprunt effectué" |};
           Returned {| ok := false; message := "Aucune copie disponible" |}]
  ∧ available_copies <$> books_by_id (db res.2) !! isbn_ = Some (Some 0)
  ∧ active_count (db res.2) reader = 2
  ∧ active_count (db res.2) other_reader = 1.
Proof. intros; repeat apply conj; vm_compute; reflexivity. Qed.

(** Scenario 2: a return gives the copy back, removes the active-loan row
    and marks the history row. *)
Example return_gives_copy_back :
  let isbn_ := "978-0-123456-78-9" in
  let res :=
    serve [Borrow 2000 reader isbn_ 14; Return 3000 reader isbn_]
          (World shelf []) in
  forallb succeeded res.1 = true
  ∧ available_copies <$> books_by_id (db res.2) !! isbn_ = Some (Some 3)
  ∧ active_count (db res.2) reader = 0
  ∧ borrows_by_user (db res.2) !! (reader, 2000, isbn_)
      = Some (LoanRow (Some "Dune") None (Some "RETURNED") (Some 1209602000)
                (Some 3000))
  ∧ users_by_id (db res.2) !! reader
      = Some (UserRow (Some "noe.test.borrow@example.com") (Some "Noe")
                (Some "BorrowTest") (Some "") (Some "") (Some 1000)
                (Some 1) (Some 0)).
Proof. intros; repeat apply conj; vm_compute; reflexivity. Qed.

(** Scenario 5: a borrow of an unknown ISBN is refused. *)
Example borrow_unknown_isbn :
  borrow_book 2000 reader "0-00" 14 (World shelf [])
    = (Returned {| ok := false; message := "Livre introuvable" |},
       World shelf []).
Proof. reflexivity. Qed.

(** A write that fails in the middle of the fan-out leaves the writes before
    it in place: here the copy is taken in [books_by_id] only. *)
Example borrow_partial_failure :
  let isbn_ := "978-0-123456-78-9" in
  let res := borrow_book 2000 reader isbn_ 14
               (World shelf [None; Some "write timeout"]) in
  res.1 = Returned {| ok := false;
                      message := "Erreur emprunt: write timeout" |}
  ∧ available_copies <$> books_by_id (db res.2) !! isbn_ = Some (Some 2)
  ∧ v_available_copies
      <$> books_by_category (db res.2)
            !! ("Science Fiction", "Dune", "978-0-123456-78-9")
      = Some (Some 3)
  ∧ active_count (db res.2) reader = 0.
Proof. intros; repeat apply conj; vm_compute; reflexivity. Qed.

(** * The properties of the specification *)

(** C1, as the code has it: creating a patron does not fail when the email
    is already in use.  When both inserts go through, [create_user] returns
    the fresh identifier, and the row of [users_by_email] for that email is
    replaced: the email now resolves to the new patron. *)
Theorem create_user_replaces_email_row user_id registration_date email_
    first_name_ last_name_ phone_ address_ w :
  is_Some (users_by_email (db w) !! email_) →
  first_fault 2 (faults w) = None →
  ∃ w',
    UserRepository.create_user user_id registration_date email_ first_name_
      last_name_ phone_ address_ w = (Returned user_id, w')
    ∧ users_by_email (db w') !! email_ =
        Some (EmailRow (Some user_id) (Some first_name_) (Some last_name_)
                (Some registration_date))
    ∧ UserRepository.get_user_id_by_email email_ w'
        = (Returned (Some user_id), w').
Proof.
  intros _ Hf. destruct w as [d fs].
  assert (∀ w', users_by_email (db w') !! email_ =
            Some (EmailRow (Some user_id) (Some first_name_)
                    (Some last_name_) (Some registration_date)) →
          UserRepository.get_user_id_by_email email_ w'
            = (Returned (Some user_id), w')) as Hget.
  { intros w' Hw'. unfold UserRepository.get_user_id_by_email.
    rewrite bind_query, Hw'. done. }
  destruct fs as [|[m|] [|[m'|] fs]]; try (by vm_compute in Hf);
    (eexists; split; [reflexivity|]);
    (split; [apply lookup_insert_eq | apply Hget, lookup_insert_eq]).
Qed.

Lemma create_user_replaces_email_row_witness :
  is_Some (users_by_email shelf !! "noe@example.com")
  ∧ first_fault 2 [] = None
  ∧ ∃ w',
      UserRepository.create_user 9%N 2000 "noe@example.com" "Noe"
        "Wisselmann" "" "" (World shelf []) = (Returned 9%N, w')
      ∧ users_by_email (db w') !! "noe@example.com" =
          Some (EmailRow (Some 9%N) (Some "Noe") (Some "Wisselmann")
                  (Some 2000))
      ∧ UserRepository.get_user_id_by_email "noe@example.com" w'
          = (Returned (Some 9%N), w').
Proof.
  assert (is_Some (users_by_email shelf !! "noe@example.com")) as Hin
    by (by eexists; vm_compute).
  split; [exact Hin|]. split; [reflexivity|].
  apply (create_user_replaces_email_row 9%N 2000 "noe@example.com" "Noe"
           "Wisselmann" "" "" (World shelf []) Hin).
  reflexivity.
Defined.

(** C1 fails on the code: with the email of a registered patron,
    [create_user] returns a fresh identifier. *)
Lemma create_user_duplicate_email_succeeds :
  users_by_email shelf !! "noe@example.com"
    = Some (EmailRow (Some other_reader) (Some "Noe") (Some "Wisselmann")
              (Some 1001))
  ∧ users_by_id shelf !! 9%N = None
  ∧ (UserRepository.create_user 9%N 2000 "noe@example.com" "Noe"
       "Wisselmann" "" "" (World shelf [])).1 = Returned 9%N.
Proof. by vm_compute. Qed.

(** C2: along a serial sequence of successful borrows and returns, a book
    that starts with [0 ≤ available_copies ≤ total_copies] keeps it. *)
Theorem copies_stay_in_range rs w isbn_ :
  copies_in_range (db w) isbn_ = true →
  forallb succeeded (serve rs w).1 = true →
  copies_in_range (db (serve rs w).2) isbn_ = true.
Proof.
  revert w. induction rs as [|r rs IH]; intros w Hc Hok; [done|].
  simpl in *. destruct (perform r w) as [o w1] eqn:Hp.
  destruct (serve rs w1) as [os w2] eqn:Hs. simpl in *.
  apply andb_true_iff in Hok as [Ho Hos].
  specialize (IH w1). rewrite Hs in IH. apply IH; [|done].
  by eapply perform_copies_in_range.
Qed.

Lemma copies_stay_in_range_witness :
  let rs := [Borrow 2000 reader "978-0-123456-78-9" 14;
             Borrow 2500 other_reader "978-0-123456-78-9" 14;
             Return 3000 reader "978-0-123456-78-9"] in
  copies_in_range shelf "978-0-123456-78-9" = true
  ∧ forallb succeeded (serve rs (World shelf [])).1 = true
  ∧ copies_in_range (db (serve rs (World shelf [])).2) "978-0-123456-78-9"
      = true.
Proof.
  intros rs.
  assert (copies_in_range shelf "978-0-123456-78-9" = true) as H1
    by (vm_compute; reflexivity).
  assert (forallb succeeded (serve rs (World shelf [])).1 = true) as H2
    by (vm_compute; reflexivity).
  split; [exact H1|]. split; [exact H2|].
  exact (copies_stay_in_range rs (World shelf []) "978-0-123456-78-9" H1 H2).
Defined.

(** C3, as the code has it: along a serial sequence of successful borrows
    and returns in which every borrow starts a new loan (the key it writes
    in the active-loan table, patron, reading of the clock and ISBN, is not
    there yet), a patron whose [active_borrows] counter starts equal to the
    number of rows of the patron's active-loan partition keeps it equal. *)
Theorem active_borrows_counts_partition rs w user_id :
  counter_consistent (db w) user_id = true →
  loans_are_new rs w = true →
  forallb succeeded (serve rs w).1 = true →
  counter_consistent (db (serve rs w).2) user_id = true.
Proof.
  revert w. induction rs as [|r rs IH]; intros w Hc Hnew Hok; [done|].
  simpl in *. destruct (perform r w) as [o w1] eqn:Hp.
  destruct (serve rs w1) as [os w2] eqn:Hs. simpl in *.
  apply andb_true_iff in Hok as [Ho Hos].
  apply andb_true_iff in Hnew as [Hr Hnew].
  pose proof (perform_counter_consistent r w o w1 user_id Hp Ho Hc Hr)
    as Hc1.
  specialize (IH w1). rewrite Hs in IH. by apply IH.
Qed.

Lemma active_borrows_counts_partition_witness :
  let rs := [Borrow 2500 reader "978-0-123456-78-9" 14;
             Borrow 2000 reader "978-0-123456-78-9" 14;
             Return 2000 reader "978-0-123456-78-9"] in
  counter_consistent shelf reader = true
  ∧ loans_are_new rs (World shelf []) = true
  ∧ forallb succeeded (serve rs (World shelf [])).1 = true
  ∧ counter_consistent (db (serve rs (World shelf [])).2) reader = true.
Proof.
  intros rs.
  assert (counter_consistent shelf reader = true) as H1
    by (vm_compute; reflexivity).
  assert (loans_are_new rs (World shelf []) = true) as H2
    by (vm_compute; reflexivity).
  assert (forallb succeeded (serve rs (World shelf [])).1 = true) as H3
    by (vm_compute; reflexivity).
  split; [exact H1|]. split; [exact H2|]. split; [exact H3|].
  exact (active_borrows_counts_partition rs (World shelf []) reader
           H1 H2 H3).
Defined.

(** C3 fails on the code: two borrows of the same ISBN by the same patron
    with the same reading of the clock both succeed; they write the same
    key of the active-loan table, so the partition holds one row while the
    counter has been raised twice. *)
Lemma active_borrows_ahead_of_partition :
  let rs := [Borrow 2000 reader "978-0-123456-78-9" 14;
             Borrow 2000 reader "978-0-123456-78-9" 14] in
  let d' := db (serve rs (World shelf [])).2 in
  counter_consistent shelf reader = true
  ∧ forallb succeeded (serve rs (World shelf [])).1 = true
  ∧ active_borrows <$> users_by_id d' !! reader = Some (Some 2)
  ∧ active_count d' reader = 1
  ∧ counter_consistent d' reader = false.
Proof. vm_compute. by repeat split. Qed.

(** C4, as the code has it: [add_book], [borrow_book] and [return_book]
    turn the failure of a write statement into a [False] result
    ([add_book] returns [True] exactly when none of its three inserts fails;
    a borrow or a return whose fan-out of seven writes meets a fault answers
    [ok = False]), while [create_user] logs the failure and raises it again
    to its caller.  The one exception [borrow_book] lets through is the
    overflow of the due date, computed before the writes. *)
Theorem write_failures_by_repository :
  (∀ book w,
     (BookRepository.add_book book w).1
       = Returned (bool_decide (first_fault 3 (faults w) = None)))
  ∧ (∀ now user_id isbn_ loan_days w,
       (∃ e, add_days now loan_days = inl e)
       ∨ ∃ r, (borrow_book now user_id isbn_ loan_days w).1 = Returned r
              ∧ (first_fault 7 (faults w) = None ∨ ok r = false))
  ∧ (∀ now user_id isbn_ w,
       ∃ r, (return_book now user_id isbn_ w).1 = Returned r
            ∧ (first_fault 7 (faults w) = None ∨ ok r = false))
  ∧ (∀ user_id registration_date email_ first_name_ last_name_ phone_
       address_ w,
       (UserRepository.create_user user_id registration_date email_
          first_name_ last_name_ phone_ address_ w).1
         = match first_fault 2 (faults w) with
           | Some msg => Raised (DriverError msg)
           | None => Returned user_id
           end).
Proof.
  split; [|split; [|split]].
  - intros book [d fs].
    destruct fs as [|[m|] [|[m'|] [|[m''|] fs]]]; reflexivity.
  - intros now u i days w.
    destruct (borrow_book_returns now u i days w) as [?|(r & w' & Hr)];
      [by left|right].
    exists r. rewrite Hr. split; [done|].
    destruct (ok r) eqn:Hok; [left|by right].
    by apply borrow_book_succeeded in Hr
      as (? & ? & ? & ? & ? & ? & ? & _ & _ & _ & _ & _ & _ & _ & _ & Hf & _).
  - intros now u i w.
    destruct (return_book_returns now u i w) as (r & w' & Hr).
    exists r. rewrite Hr. split; [done|].
    destruct (ok r) eqn:Hok; [left|by right].
    by apply return_book_succeeded in Hr
      as (? & ? & ? & ? & ? & ? & ? & _ & _ & _ & _ & _ & _ & Hf & _).
  - intros uid reg e f l p a [d fs].
    destruct fs as [|[m|] [|[m'|] fs]]; reflexivity.
Qed.

(** C4 fails on the code: when its first insert fails, [create_user] raises. *)
Lemma create_user_reraises :
  (UserRepository.create_user 9%N 2000 "a@example.com" "Ada" "Nym" "" ""
     (World shelf [Some "write timeout"])).1
  = Raised (DriverError "write timeout").
Proof. reflexivity. Qed.

(** C5: [borrow_book] checks the book, then the copies, then the patron,
    and the first check that fails decides the answer: a missing book gives
    the not-found-book failure; a book without an available copy gives the
    unavailable failure, whether or not the patron exists; a book with a
    copy and a missing patron gives the not-found-patron failure. *)
Theorem borrow_validation_order now user_id isbn_ loan_days w :
  (books_by_id (db w) !! isbn_ = None →
   borrow_book now user_id isbn_ loan_days w
     = (Returned {| ok := false; message := "Livre introuvable" |}, w))
  ∧ (∀ book,
       books_by_id (db w) !! isbn_ = Some book →
       ¬ (0 < or0 (available_copies book)) →
       borrow_book now user_id isbn_ loan_days w
         = (Returned {| ok := false; message := "Aucune copie disponible" |},
            w))
  ∧ (∀ book,
       books_by_id (db w) !! isbn_ = Some book →
       0 < or0 (available_copies book) →
       users_by_id (db w) !! user_id = None →
       borrow_book now user_id isbn_ loan_days w
         = (Returned {| ok := false; message := "Utilisateur introuvable" |},
            w)).
Proof.
  split; [|split].
  - apply borrow_book_no_book.
  - intros book. apply borrow_book_no_copies.
  - intros book. apply borrow_book_no_user.
Qed.

Lemma borrow_validation_order_witness :
  let no_copy :=
    with_books_by_id
      (upsert blank_book (book_set_available (Some 0)) "978-0-123456-78-9")
      shelf in
  (books_by_id shelf !! "0-00" = None →
   borrow_book 2000 reader "0-00" 14 (World shelf [])
     = (Returned {| ok := false; message := "Livre introuvable" |},
        World shelf []))
  ∧ (borrow_book 2000 9%N "978-0-123456-78-9" 14 (World no_copy [])
       = (Returned {| ok := false; message := "Aucune copie disponible" |},
          World no_copy []))
  ∧ (borrow_book 2000 9%N "978-0-123456-78-9" 14 (World shelf [])
       = (Returned {| ok := false; message := "Utilisateur introuvable" |},
          World shelf [])).
Proof.
  intros no_copy. split; [|split].
  - exact (proj1 (borrow_validation_order 2000 reader "0-00" 14
                    (World shelf []))).
  - refine (proj1 (proj2 (borrow_validation_order 2000 9%N
                            "978-0-123456-78-9" 14 (World no_copy []))) _ _ _).
    + vm_compute; reflexivity.
    + vm_compute. discriminate.
  - refine (proj2 (proj2 (borrow_validation_order 2000 9%N
                            "978-0-123456-78-9" 14 (World shelf []))) _ _ _ _).
    + vm_compute; reflexivity.
    + vm_compute; reflexivity.
    + vm_compute; reflexivity.
Defined.

(** C6: after a successful borrow or return of a book that the two views
    file under the category, author and title of [books_by_id], the three
    views carry the same [available_copies] for it. *)
Theorem copies_in_sync_after_success r w o w' :
  views_agree (db w) (request_isbn r) = true →
  perform r w = (o, w') → succeeded o = true →
  copies_in_sync (db w') (request_isbn r) = true.
Proof. intros Hv Hp Hok. by eapply perform_copies_in_sync. Qed.

Lemma copies_in_sync_after_success_witness :
  let b := Borrow 2000 reader "978-0-123456-78-9" 14 in
  let r := Return 3000 reader "978-0-123456-78-9" in
  let w1 := (perform b (World shelf [])).2 in
  (views_agree shelf "978-0-123456-78-9" = true
   ∧ succeeded (perform b (World shelf [])).1 = true
   ∧ copies_in_sync (db w1) "978-0-123456-78-9" = true)
  ∧ (views_agree (db w1) "978-0-123456-78-9" = true
     ∧ succeeded (perform r w1).1 = true
     ∧ copies_in_sync (db (perform r w1).2) "978-0-123456-78-9" = true).
Proof.
  intros b r w1.
  assert (views_agree shelf "978-0-123456-78-9" = true) as H1
    by (vm_compute; reflexivity).
  assert (succeeded (perform b (World shelf [])).1 = true) as H2
    by (vm_compute; reflexivity).
  assert (views_agree (db w1) "978-0-123456-78-9" = true) as H3
    by (vm_compute; reflexivity).
  assert (succeeded (perform r w1).1 = true) as H4
    by (vm_compute; reflexivity).
  split.
  - split; [exact H1|]. split; [exact H2|].
    exact (copies_in_sync_after_success b (World shelf []) _ _ H1
             (surjective_pairing _) H2).
  - split; [exact H3|]. split; [exact H4|].
    exact (copies_in_sync_after_success r w1 _ _ H3
             (surjective_pairing _) H4).
Defined.

(** C7: a successful return writes [min(available_copies + 1,
    total_copies)], for the values read at its start, to the three book
    views; what it writes is at most [total_copies]. *)
Theorem return_writes_clamped_copies now user_id isbn_ w o w' book a t :
  books_by_id (db w) !! isbn_ = Some book →
  available_copies book = Some a →
  total_copies book = Some t →
  return_book now user_id isbn_ w = (o, w') → succeeded o = true →
  ∃ category_ title_ author_,
    category book = Some category_ ∧ title book = Some title_
    ∧ author book = Some author_
    ∧ available_copies <$> books_by_id (db w') !! isbn_
        = Some (Some (Z.min (a + 1) t))
    ∧ v_available_copies
        <$> books_by_category (db w') !! (category_, title_, isbn_)
        = Some (Some (Z.min (a + 1) t))
    ∧ v_available_copies
        <$> books_by_author (db w') !! (author_, title_, isbn_)
        = Some (Some (Z.min (a + 1) t))
    ∧ Z.min (a + 1) t ≤ t.
Proof.
  intros Hbook Ha Ht Hr Hok.
  apply return_book_succeeded in Hr
    as (m & book' & user & c & ti & au & v & _ & Hbook' & _ & Hc & Hti & Hau
        & _ & Hv & -> & -> & -> & _); [|done].
  simplify_eq. rewrite Ha, Ht. simpl.
  exists c, ti, au. unfold upsert. rewrite !lookup_insert_eq. simpl.
  repeat split; try done. lia.
Qed.

Lemma return_writes_clamped_copies_witness :
  let isbn_ := "978-0-123456-78-9" in
  let book :=
    BookRow (Some "Dune") (Some "Frank Herbert") (Some "Science Fiction")
      (Some "Ace") (Some 1965) (Some 3) (Some 2) (Some "Roman SF classique") in
  let w := (borrow_book 2000 reader isbn_ 14 (World shelf [])).2 in
  let w' := (return_book 3000 reader isbn_ w).2 in
  books_by_id (db w) !! isbn_ = Some book
  ∧ succeeded (return_book 3000 reader isbn_ w).1 = true
  ∧ ∃ category_ title_ author_,
      category book = Some category_ ∧ title book = Some title_
      ∧ author book = Some author_
      ∧ available_copies <$> books_by_id (db w') !! isbn_
          = Some (Some (Z.min (2 + 1) 3))
      ∧ v_available_copies
          <$> books_by_category (db w') !! (category_, title_, isbn_)
          = Some (Some (Z.min (2 + 1) 3))
      ∧ v_available_copies
          <$> books_by_author (db w') !! (author_, title_, isbn_)
          = Some (Some (Z.min (2 + 1) 3))
      ∧ Z.min (2 + 1) 3 ≤ 3.
Proof.
  intros isbn_ book w w'.
  assert (books_by_id (db w) !! isbn_ = Some book) as H1
    by (vm_compute; reflexivity).
  assert (succeeded (return_book 3000 reader isbn_ w).1 = true) as H2
    by (vm_compute; reflexivity).
  split; [exact H1|]. split; [exact H2|].
  exact (return_writes_clamped_copies 3000 reader isbn_ w _ w' book 2 3
           H1 eq_refl eq_refl (surjective_pairing _) H2).
Defined.

(** C8, as the code has it: the engine lets a patron borrow the same ISBN
    several times, and each return closes one loan.  For a patron who holds
    exactly one open loan on the ISBN, after a successful return and with no
    borrow of that ISBN by that patron in between (whatever else is served,
    and whatever faults are met), a second return fails with the
    no-active-loan failure and changes nothing. *)
Theorem second_return_fails_after_single_loan now user_id isbn_ w o w1 rs
    now' :
  length (open_loans (db w) user_id isbn_) = 1%nat →
  return_book now user_id isbn_ w = (o, w1) → succeeded o = true →
  forallb (λ r, negb (borrows user_id isbn_ r)) rs = true →
  return_book now' user_id isbn_ (serve rs w1).2
    = (Returned {| ok := false;
                   message := "Aucun emprunt actif trouvé pour ce livre" |},
       (serve rs w1).2).
Proof.
  intros Hone Hret Hok Hrs.
  pose proof (return_closes_single_loan _ _ _ _ _ _ Hone Hret Hok) as Hno.
  apply (serve_keeps_no_open_loan _ _ rs) in Hno; [|done].
  unfold return_book. rewrite bind_query.
  by rewrite (find_active_None _ _ _ Hno).
Qed.

Lemma second_return_fails_after_single_loan_witness :
  let isbn_ := "978-0-123456-78-9" in
  let w := (borrow_book 2000 reader isbn_ 14 (World shelf [])).2 in
  let w1 := (return_book 3000 reader isbn_ w).2 in
  let rs := [Borrow 3100 other_reader isbn_ 14;
             Return 3200 other_reader isbn_;
             Return 3300 other_reader isbn_] in
  length (open_loans (db w) reader isbn_) = 1%nat
  ∧ succeeded (return_book 3000 reader isbn_ w).1 = true
  ∧ forallb (λ r, negb (borrows reader isbn_ r)) rs = true
  ∧ return_book 3400 reader isbn_ (serve rs w1).2
      = (Returned {| ok := false;
                     message := "Aucun emprunt actif trouvé pour ce livre" |},
         (serve rs w1).2).
Proof.
  intros isbn_ w w1 rs.
  assert (length (open_loans (db w) reader isbn_) = 1%nat) as H1
    by (vm_compute; reflexivity).
  assert (succeeded (return_book 3000 reader isbn_ w).1 = true) as H2
    by (vm_compute; reflexivity).
  assert (forallb (λ r, negb (borrows reader isbn_ r)) rs = true) as H3
    by (vm_compute; reflexivity).
  split; [exact H1|]. split; [exact H2|]. split; [exact H3|].
  exact (second_return_fails_after_single_loan 3000 reader isbn_ w _ w1 rs
           3400 H1 (surjective_pairing _) H2 H3).
Defined.

(** C8 fails on the code: a patron who has borrowed the same ISBN twice
    returns it twice in a row, and both returns succeed. *)
Lemma second_return_succeeds_on_double_loan :
  (serve [Borrow 2000 reader "978-0-123456-78-9" 14;
          Borrow 2500 reader "978-0-123456-78-9" 14;
          Return 3000 reader "978-0-123456-78-9";
          Return 3500 reader "978-0-123456-78-9"] (World shelf [])).1
  = [Returned {| ok := true; message := "Emprunt effectué" |};
     Returned {| ok := true; message := "Emprunt effectué" |};
     Returned {| ok := true; message := "Livre retourné" |};
     Returned {| ok := true; message := "Livre retourné" |}].
Proof. vm_compute; reflexivity. Qed.

(** C9: a borrow or a return that fails one of its validations answers with
    a failure and writes nothing: the world after the call is the world
    before it. *)
Theorem failed_validation_writes_nothing r w :
  precondition (db w) r = false →
  ∃ res, perform r w = (Returned res, w) ∧ ok res = false.
Proof.
  intros Hpre. destruct r as [now u i days|now u i]; simpl in *.
  - destruct (books_by_id (db w) !! i) as [book|] eqn:Hbook;
      [|rewrite borrow_book_no_book by done; by eexists].
    apply andb_false_iff in Hpre as [Hno|Hu];
      [apply bool_decide_eq_false in Hno|apply bool_decide_eq_false in Hu].
    + rewrite (borrow_book_no_copies _ _ _ _ _ book) by done. by eexists.
    + destruct (decide (0 < or0 (available_copies book))) as [Hpos|Hno].
      * rewrite (borrow_book_no_user _ _ _ _ _ book); [by eexists|done|done|].
        destruct (users_by_id (db w) !! u) eqn:E; [|done].
        destruct Hu. by eexists.
      * rewrite (borrow_book_no_copies _ _ _ _ _ book) by done. by eexists.
  - unfold return_book. rewrite bind_query.
    destruct (find _ _) as [m|] eqn:Hfind; [|by eexists].
    rewrite bind_query. unfold _sel_book.
    destruct (books_by_id (db w) !! i) as [book|] eqn:Hbook; [|by eexists].
    rewrite bind_query. unfold _sel_user.
    destruct (users_by_id (db w) !! u) as [user|] eqn:Huser; [|by eexists].
    exfalso. rewrite !andb_false_iff in Hpre.
    destruct Hpre as [[H|H]|H]; apply bool_decide_eq_false in H.
    + apply H. intros Hnil%open_loans_find. by rewrite Hnil in Hfind.
    + apply H. by eexists.
    + apply H. by eexists.
Qed.

Lemma failed_validation_writes_nothing_witness :
  let r := Return 3000 reader "978-0-123456-78-9" in
  precondition shelf r = false
  ∧ ∃ res, perform r (World shelf [Some "unreachable"])
             = (Returned res, World shelf [Some "unreachable"])
           ∧ ok res = false.
Proof.
  intros r.
  assert (precondition shelf r = false) as H1 by (vm_compute; reflexivity).
  split; [exact H1|].
  exact (failed_validation_writes_nothing r
           (World shelf [Some "unreachable"]) H1).
Defined.

(** C10: a null [available_copies] does not make the engine raise.  A
    borrow of such a book answers with the unavailable failure and writes
    nothing; a return answers with a result, and when it succeeds it has
    counted the null as zero: it writes [1], clamped to [total_copies] only
    when that column is present. *)
Theorem null_copy_counters_are_tolerated now user_id isbn_ loan_days w book :
  books_by_id (db w) !! isbn_ = Some book →
  available_copies book = None →
  borrow_book now user_id isbn_ loan_days w
    = (Returned {| ok := false; message := "Aucune copie disponible" |}, w)
  ∧ ∃ r w',
      return_book now user_id isbn_ w = (Returned r, w')
      ∧ (ok r = true →
         available_copies <$> books_by_id (db w') !! isbn_
           = Some (Some match total_copies book with
                        | Some total => Z.min 1 total
                        | None => 1
                        end)).
Proof.
  intros Hbook Hnull. split.
  - apply (borrow_book_no_copies _ _ _ _ _ book Hbook).
    rewrite Hnull. simpl. lia.
  - destruct (return_book_returns now user_id isbn_ w) as (r & w' & Hr).
    exists r, w'. split; [done|]. intros Hok.
    apply return_book_succeeded in Hr
      as (m & book' & user & c & t & a & v & _ & Hbook' & _ & _ & _ & _ & _
          & -> & -> & _); [|done].
    simplify_eq. rewrite lookup_insert_eq, Hnull. done.
Qed.

Lemma null_copy_counters_are_tolerated_witness :
  let isbn_ := "978-0-123456-78-9" in
  let book :=
    BookRow (Some "Dune") (Some "Frank Herbert") (Some "Science Fiction")
      (Some "Ace") (Some 1965) None None None in
  let w := World lent_null_copies [] in
  books_by_id (db w) !! isbn_ = Some book
  ∧ (return_book 3000 reader isbn_ w).1
      = Returned {| ok := true; message := "Livre retourné" |}
  ∧ borrow_book 3000 reader isbn_ 14 w
      = (Returned {| ok := false; message := "Aucune copie disponible" |}, w)
  ∧ ∃ r w',
      return_book 3000 reader isbn_ w = (Returned r, w')
      ∧ (ok r = true →
         available_copies <$> books_by_id (db w') !! isbn_ = Some (Some 1)).
Proof.
  intros isbn_ book w.
  assert (books_by_id (db w) !! isbn_ = Some book) as H1
    by (vm_compute; reflexivity).
  split; [exact H1|]. split; [vm_compute; reflexivity|].
  exact (null_copy_counters_are_tolerated 3000 reader isbn_ 14 w book H1
           eq_refl).
Defined.

(** * Further properties *)

(** A decidable fact about a sample state, by evaluation. *)
Ltac evaluated :=
  match goal with |- ?P => apply (bool_decide_eq_true_1 P) end;
  vm_compute; reflexivity.

(** ** Runs of a fan-out *)
Lemma first_fault_S_inv n fs :
  first_fault (S n) fs = None →
  first_fault 1 fs = None ∧ first_fault n (tail fs) = None.
Proof. destruct fs as [|[msg|] fs]; [by destruct n|done|done]. Qed.

Lemma execute_applies st w d :
  first_fault 1 (faults w) = None → st (db w) = inr d →
  execute st w = (Returned (), World d (tail (faults w))).
Proof.
  unfold execute. destruct w as [d0 fs]; simpl.
  destruct fs as [|[msg|] fs]; [|done|]; by intros _ ->.
Qed.

Lemma execute_Raised st w e w' :
  execute st w = (Raised e, w') →
  db w' = db w
  ∧ (first_fault 1 (faults w) ≠ None ∨ st (db w) = inl e).
Proof.
  unfold execute. destruct w as [d fs]; simpl.
  destruct fs as [|[msg|] fs]; simpl.
  - destruct (st d); intros [= <- <-]; eauto.
  - intros [= <- <-]. split; [done|by left].
  - destruct (st d); intros [= <- <-]; eauto.
Qed.

#[local] Arguments run_plan : simpl never.

Section run_plan.
Context {A : Type} (k : M A).

Lemma run_plan_cons st sts :
  run_plan (st :: sts) k = (execute st ;; run_plan sts k).
Proof. done. Qed.

Lemma run_plan_completes sts w d' :
  first_fault (length sts) (faults w) = None →
  apply_all sts (db w) = inr d' →
  run_plan sts k w = k (World d' (drop (length sts) (faults w))).
Proof.
  revert w. induction sts as [|st sts IH]; intros [d fs]; simpl.
  - intros _ [= ->]. by rewrite drop_0.
  - intros [Hf1 Hf]%first_fault_S_inv Happ.
    destruct (st d) as [e|d1] eqn:Hst; [done|].
    rewrite run_plan_cons.
    unfold mbind, M_bind. rewrite (execute_applies st _ d1) by done.
    simpl. rewrite (IH (World d1 (tail fs))) by done. simpl.
    destruct fs; simpl; by rewrite ?drop_nil.
Qed.

Lemma run_plan_cases sts w :
  (∃ d', apply_all sts (db w) = inr d'
         ∧ first_fault (length sts) (faults w) = None
         ∧ run_plan sts k w = k (World d' (drop (length sts) (faults w))))
  ∨ (∃ e w', run_plan sts k w = (Raised e, w')
             ∧ db w' ∈ states_along (removelast sts) (db w)).
Proof.
  revert w. induction sts as [|st sts IH]; intros w.
  { left. exists (db w). simpl. rewrite drop_0. by destruct w. }
  rewrite run_plan_cons. unfold mbind, M_bind.
  destruct (execute st w) as [[[]|e] w1] eqn:Hex.
  - apply execute_Returned in Hex as (d1 & Hst & -> & Hf1).
    destruct (IH (World d1 (tail (faults w))))
      as [(d' & Happ & Hf & Hrun)|(e & w' & Hrun & Hin)]; simpl in *.
    + left. exists d'. rewrite Hst. split; [done|].
      split; [by apply first_fault_S|].
      rewrite Hrun. destruct (faults w); simpl; by rewrite ?drop_nil.
    + destruct sts as [|st' sts].
      * left. exists d1. rewrite Hst. split; [done|]. split; [done|].
        destruct (faults w); simpl; by rewrite ?drop_0.
      * right. exists e, w'. split; [done|].
        change (removelast (st :: st' :: sts))
          with (st :: removelast (st' :: sts)).
        simpl. rewrite Hst. by apply list_elem_of_further.
  - right. exists e, w1. split; [done|].
    apply execute_Raised in Hex as [-> _].
    destruct (removelast (st :: sts)); simpl; apply list_elem_of_here.
Qed.
End run_plan.

(** ** The three ways a borrow and a return can go *)
Lemma borrow_book_runs_plan now u i days w book copies user due :
  books_by_id (db w) !! i = Some book →
  available_copies book = Some copies → 0 < copies →
  users_by_id (db w) !! u = Some user →
  add_days now days = inr due →
  borrow_book now u i days w
  = try_except
      (run_plan (borrow_plan now u i book user copies due)
         (mret {| ok := true; message := "Emprunt effectué" |}))
      (λ e, mret {| ok := false;
                    message := "Erreur emprunt: " +:+ exn_str e |}) w.
Proof.
  intros Hbook Hcopies Hpos Huser Hadd.
  unfold borrow_book. rewrite bind_query. unfold _sel_book.
  rewrite Hbook, Hcopies. rewrite bool_decide_eq_false_2 by lia.
  rewrite bind_query. unfold _sel_user. by rewrite Huser, Hadd.
Qed.

Lemma return_book_runs_plan now u i w m book user :
  find (λ r, bool_decide (isbn r = i)) (_sel_active_by_user u (db w))
    = Some m →
  books_by_id (db w) !! i = Some book →
  users_by_id (db w) !! u = Some user →
  return_book now u i w
  = try_except
      (run_plan (return_plan now u i book user (borrow_date m))
         (mret {| ok := true; message := "Livre retourné" |}))
      (λ e, mret {| ok := false;
                    message := "Erreur retour: " +:+ exn_str e |}) w.
Proof.
  intros Hfind Hbook Huser.
  unfold return_book. rewrite bind_query, Hfind.
  rewrite bind_query. unfold _sel_book. rewrite Hbook.
  rewrite bind_query. unfold _sel_user. by rewrite Huser.
Qed.

Lemma borrow_book_cases now u i days w :
  ((borrow_book now u i days w).2 = w
   ∧ succeeded (borrow_book now u i days w).1 = false)
  ∨ ∃ book copies user due,
      books_by_id (db w) !! i = Some book
      ∧ available_copies book = Some copies ∧ 0 < copies
      ∧ users_by_id (db w) !! u = Some user
      ∧ add_days now days = inr due
      ∧ ((∃ d', apply_all (borrow_plan now u i book user copies due) (db w)
                  = inr d'
                ∧ first_fault 7 (faults w) = None
                ∧ borrow_book now u i days w
                  = (Returned {| ok := true; message := "Emprunt effectué" |},
                     World d' (drop 7 (faults w))))
         ∨ (∃ e w',
              borrow_book now u i days w
                = (Returned {| ok := false;
                               message := "Erreur emprunt: " +:+ exn_str e |},
                   w')
              ∧ db w' ∈ states_along
                          (removelast
                             (borrow_plan now u i book user copies due))
                          (db w))).
Proof.
  destruct (books_by_id (db w) !! i) as [book|] eqn:Hbook;
    [|left; by rewrite borrow_book_no_book].
  destruct (decide (0 < or0 (available_copies book))) as [Hpos|Hno];
    [|left; by rewrite (borrow_book_no_copies _ _ _ _ _ book)].
  destruct (available_copies book) as [copies|] eqn:Hcopies; [|done].
  destruct (users_by_id (db w) !! u) as [user|] eqn:Huser;
    [|left; rewrite (borrow_book_no_user _ _ _ _ _ book); try done;
      by rewrite Hcopies].
  destruct (add_days now days) as [e|due] eqn:Hadd.
  { left. unfold borrow_book. rewrite bind_query. unfold _sel_book.
    rewrite Hbook, Hcopies. rewrite bool_decide_eq_false_2 by (simpl in *; lia).
    rewrite bind_query. unfold _sel_user. by rewrite Huser, Hadd. }
  right. exists book, copies, user, due. simpl in Hpos.
  do 5 (split; [done|]).
  rewrite (borrow_book_runs_plan _ _ _ _ _ book copies user due) by done.
  unfold try_except.
  destruct (run_plan_cases
              (mret {| ok := true; message := "Emprunt effectué" |})
              (borrow_plan now u i book user copies due) w)
    as [(d' & Happ & Hf & ->)|(e & w' & -> & Hin)].
  - left. by exists d'.
  - right. by exists e, w'.
Qed.

Lemma return_book_cases now u i w :
  ((return_book now u i w).2 = w
   ∧ succeeded (return_book now u i w).1 = false)
  ∨ ∃ m book user,
      find (λ r, bool_decide (isbn r = i)) (_sel_active_by_user u (db w))
        = Some m
      ∧ books_by_id (db w) !! i = Some book
      ∧ users_by_id (db w) !! u = Some user
      ∧ ((∃ d', apply_all (return_plan now u i book user (borrow_date m))
                  (db w) = inr d'
                ∧ first_fault 7 (faults w) = None
                ∧ return_book now u i w
                  = (Returned {| ok := true; message := "Livre retourné" |},
                     World d' (drop 7 (faults w))))
         ∨ (∃ e w',
              return_book now u i w
                = (Returned {| ok := false;
                               message := "Erreur retour: " +:+ exn_str e |},
                   w')
              ∧ db w' ∈ states_along
                          (removelast
                             (return_plan now u i book user (borrow_date m)))
                          (db w))).
Proof.
  destruct (find (λ r, bool_decide (isbn r = i))
              (_sel_active_by_user u (db w))) as [m|] eqn:Hfind.
  2: { left. unfold return_book. by rewrite bind_query, Hfind. }
  destruct (books_by_id (db w) !! i) as [book|] eqn:Hbook.
  2: { left. unfold return_book. rewrite bind_query, Hfind.
       rewrite bind_query. unfold _sel_book. by rewrite Hbook. }
  destruct (users_by_id (db w) !! u) as [user|] eqn:Huser.
  2: { left. unfold return_book. rewrite bind_query, Hfind.
       rewrite bind_query. unfold _sel_book. rewrite Hbook.
       rewrite bind_query. unfold _sel_user. by rewrite Huser. }
  right. exists m, book, user. do 3 (split; [done|]).
  rewrite (return_book_runs_plan _ _ _ _ m book user) by done.
  unfold try_except.
  destruct (run_plan_cases
              (mret {| ok := true; message := "Livre retourné" |})
              (return_plan now u i book user (borrow_date m)) w)
    as [(d' & Happ & Hf & ->)|(e & w' & -> & Hin)].
  - left. by exists d'.
  - right. by exists e, w'.
Qed.

(** ** When a borrow and a return succeed *)

(** X1: [borrow_book] answers [ok] exactly when the book has a copy left, the
    patron exists, the book row carries the category, title and author
    under which the views file it, the due date is a valid date and none
    of the seven writes fails. *)
Theorem borrow_book_ok_iff now user_id isbn_ loan_days w :
  succeeded (borrow_book now user_id isbn_ loan_days w).1 = true ↔
  ∃ book copies,
    books_by_id (db w) !! isbn_ = Some book
    ∧ available_copies book = Some copies ∧ 0 < copies
    ∧ is_Some (users_by_id (db w) !! user_id)
    ∧ is_Some (category book) ∧ is_Some (title book) ∧ is_Some (author book)
    ∧ (∃ due, add_days now loan_days = inr due)
    ∧ first_fault 7 (faults w) = None.
Proof.
  split.
  - intros Hok.
    destruct (borrow_book_succeeded now user_id isbn_ loan_days w _ _
                (surjective_pairing _) Hok)
      as (book & user & copies & c & t & a & due & Hbook & Hcopies & Hpos
          & Huser & Hc & Ht & Ha & Hadd & Hf & _).
    exists book, copies. rewrite Hc, Ht, Ha, Huser. eauto 12.
  - intros (book & copies & Hbook & Hcopies & Hpos & [user Huser] & [c Hc]
            & [t Ht] & [a Ha] & [due Hadd] & Hf).
    rewrite (borrow_book_runs_plan _ _ _ _ _ book copies user due) by done.
    unfold try_except. erewrite run_plan_completes; [done|done|].
    simpl. by rewrite Hc, Ht, Ha.
Qed.

Lemma borrow_book_ok_iff_witness :
  succeeded (borrow_book 2000 reader "978-0-123456-78-9" 14
               (World shelf [])).1 = true.
Proof.
  apply (proj2 (borrow_book_ok_iff 2000 reader "978-0-123456-78-9" 14
                  (World shelf []))).
  exists (BookRow (Some "Dune") (Some "Frank Herbert")
            (Some "Science Fiction") (Some "Ace") (Some 1965) (Some 3)
            (Some 3) (Some "Roman SF classique")), 3.
  split; [vm_compute; reflexivity|]. split; [reflexivity|].
  split; [lia|]. split; [evaluated|].
  split; [by eexists|]. split; [by eexists|]. split; [by eexists|].
  split; [by exists 1209602000|]. reflexivity.
Defined.

(** X2: [return_book] answers [ok] exactly when the patron's partition holds an
    open loan on the ISBN, the book and the patron exist, the book row
    carries its category, title and author, and none of the seven writes
    fails. *)
Theorem return_book_ok_iff now user_id isbn_ w :
  succeeded (return_book now user_id isbn_ w).1 = true ↔
  open_loans (db w) user_id isbn_ ≠ []
  ∧ (∃ book,
       books_by_id (db w) !! isbn_ = Some book
       ∧ is_Some (category book) ∧ is_Some (title book)
       ∧ is_Some (author book))
  ∧ is_Some (users_by_id (db w) !! user_id)
  ∧ first_fault 7 (faults w) = None.
Proof.
  split.
  - intros Hok.
    destruct (return_book_succeeded now user_id isbn_ w _ _
                (surjective_pairing _) Hok)
      as (m & book & user & c & t & a & v & Hfind & Hbook & Huser & Hc & Ht
          & Ha & Hf & _).
    split; [intros Hnil%open_loans_find; by rewrite Hnil in Hfind|].
    split; [exists book; by rewrite Hc, Ht, Ha|]. by rewrite Huser.
  - intros (Hopen & (book & Hbook & [c Hc] & [t Ht] & [a Ha])
            & [user Huser] & Hf).
    destruct (find (λ r, bool_decide (isbn r = isbn_))
                (_sel_active_by_user user_id (db w))) as [m|] eqn:Hfind;
      [|by apply open_loans_find in Hfind].
    rewrite (return_book_runs_plan _ _ _ _ m book user) by done.
    unfold try_except. erewrite run_plan_completes; [done|done|].
    simpl. by rewrite Hc, Ht, Ha.
Qed.

Lemma return_book_ok_iff_witness :
  let w := (borrow_book 2000 reader "978-0-123456-78-9" 14
              (World shelf [])).2 in
  succeeded (return_book 3000 reader "978-0-123456-78-9" w).1 = true.
Proof.
  intros w.
  apply (proj2 (return_book_ok_iff 3000 reader "978-0-123456-78-9" w)).
  split; [vm_compute; discriminate|].
  split.
  { exists (BookRow (Some "Dune") (Some "Frank Herbert")
              (Some "Science Fiction") (Some "Ace") (Some 1965) (Some 3)
              (Some 2) (Some "Roman SF classique")).
    split; [vm_compute; reflexivity|].
    split; [by eexists|]. split; by eexists. }
  split; [evaluated|]. reflexivity.
Defined.

(** ** The order of the writes *)
Lemma apply_all_states_along sts d d' :
  apply_all sts d = inr d' → d' ∈ states_along sts d.
Proof.
  revert d. induction sts as [|st sts IH]; intros d; simpl.
  - intros [= ->]. apply list_elem_of_here.
  - destruct (st d) as [e|d1]; [done|]. intros Happ.
    apply list_elem_of_further. by apply IH.
Qed.

Lemma states_along_removelast sts d d' :
  d' ∈ states_along (removelast sts) d → d' ∈ states_along sts d.
Proof.
  revert d. induction sts as [|st sts IH]; intros d; [done|].
  destruct sts as [|st' sts].
  - simpl. intros ->%list_elem_of_singleton. apply list_elem_of_here.
  - change (removelast (st :: st' :: sts))
      with (st :: removelast (st' :: sts)).
    simpl. intros [->|Hin]%elem_of_cons; [apply list_elem_of_here|].
    apply list_elem_of_further.
    destruct (st d) as [e|d1]; [done|]. by apply IH.
Qed.

Lemma states_along_keeps (I : database → Prop) sts d d' :
  Forall (statement_keeps I) sts → I d →
  d' ∈ states_along sts d → I d'.
Proof.
  intros Hsts. revert d. induction Hsts as [|st sts Hst _ IH]; intros d HI.
  - simpl. by intros ->%list_elem_of_singleton.
  - simpl. intros [->|Hin]%elem_of_cons; [done|].
    destruct (st d) as [e|d1] eqn:E; [by apply elem_of_nil in Hin|].
    apply (IH d1); [by eapply Hst|done].
Qed.

(** The database after a borrow is one of the stores along its plan. *)
Lemma borrow_book_along now u i days w :
  (borrow_book now u i days w).2 = w
  ∨ ∃ book copies user due,
      books_by_id (db w) !! i = Some book
      ∧ available_copies book = Some copies ∧ 0 < copies
      ∧ users_by_id (db w) !! u = Some user
      ∧ add_days now days = inr due
      ∧ db (borrow_book now u i days w).2
        ∈ states_along (borrow_plan now u i book user copies due) (db w).
Proof.
  destruct (borrow_book_cases now u i days w)
    as [[? _]|(book & copies & user & due & ? & ? & ? & ? & ? & Hrun)];
    [by left|right].
  exists book, copies, user, due. do 5 (split; [done|]).
  destruct Hrun as [(d' & Happ & _ & ->)|(e & w' & -> & Hin)]; cbn [snd db].
  - by apply apply_all_states_along.
  - by apply states_along_removelast.
Qed.

Lemma return_book_along now u i w :
  (return_book now u i w).2 = w
  ∨ ∃ m book user,
      find (λ r, bool_decide (isbn r = i)) (_sel_active_by_user u (db w))
        = Some m
      ∧ books_by_id (db w) !! i = Some book
      ∧ users_by_id (db w) !! u = Some user
      ∧ db (return_book now u i w).2
        ∈ states_along (return_plan now u i book user (borrow_date m))
            (db w).
Proof.
  destruct (return_book_cases now u i w)
    as [[? _]|(m & book & user & ? & ? & ? & Hrun)]; [by left|right].
  exists m, book, user. do 3 (split; [done|]).
  destruct Hrun as [(d' & Happ & _ & ->)|(e & w' & -> & Hin)]; cbn [snd db].
  - by apply apply_all_states_along.
  - by apply states_along_removelast.
Qed.

Ltac along book Hin :=
  unfold borrow_plan, return_plan in Hin;
  destruct (category book) eqn:?, (title book) eqn:?, (author book) eqn:?;
  simpl in Hin;
  repeat (apply elem_of_cons in Hin as [->|Hin]);
  try (by apply elem_of_nil in Hin).

(** X3: Whichever write fails, a borrow never records the active loan without
    having taken the copy in [books_by_id] and written the two history
    rows. *)
Theorem borrow_book_takes_copy_first now user_id isbn_ loan_days w :
  let d' := db (borrow_book now user_id isbn_ loan_days w).2 in
  active_borrows_by_user (db w) !! (user_id, now, isbn_) = None →
  is_Some (active_borrows_by_user d' !! (user_id, now, isbn_)) →
  ∃ book copies,
    books_by_id (db w) !! isbn_ = Some book
    ∧ available_copies book = Some copies
    ∧ available_copies <$> books_by_id d' !! isbn_ = Some (Some (copies - 1))
    ∧ l_status <$> borrows_by_user d' !! (user_id, now, isbn_)
        = Some (Some "BORROWED")
    ∧ l_status <$> borrows_by_book d' !! (isbn_, now, user_id)
        = Some (Some "BORROWED").
Proof.
  intros d' Hnone Hsome. subst d'.
  destruct (borrow_book_along now user_id isbn_ loan_days w)
    as [Heq|(book & copies & user & due & Hbook & Hcopies & Hpos & Huser
             & Hadd & Hin)].
  { rewrite Heq, Hnone in Hsome. by destruct Hsome. }
  exists book, copies. do 2 (split; [done|]).
  revert Hsome.
  generalize dependent (db (borrow_book now user_id isbn_ loan_days w).2).
  intros d' Hin Hsome.
  along book Hin; simpl in *;
    try (rewrite Hnone in Hsome; by destruct Hsome).
  all: unfold upsert; by rewrite Hbook, !lookup_insert_eq.
Qed.

Lemma borrow_book_takes_copy_first_witness :
  let w := World shelf [None; None; None; None; None; None; Some "timeout"] in
  let d' := db (borrow_book 2000 reader "978-0-123456-78-9" 14 w).2 in
  (borrow_book 2000 reader "978-0-123456-78-9" 14 w).1
    = Returned {| ok := false; message := "Erreur emprunt: timeout" |}
  ∧ ∃ book copies,
      books_by_id (db w) !! "978-0-123456-78-9" = Some book
      ∧ available_copies book = Some copies
      ∧ available_copies <$> books_by_id d' !! "978-0-123456-78-9"
          = Some (Some (copies - 1))
      ∧ l_status <$> borrows_by_user d' !! (reader, 2000, "978-0-123456-78-9")
          = Some (Some "BORROWED")
      ∧ l_status <$> borrows_by_book d' !! ("978-0-123456-78-9", 2000, reader)
          = Some (Some "BORROWED").
Proof.
  intros w d'. split; [vm_compute; reflexivity|].
  apply (borrow_book_takes_copy_first 2000 reader "978-0-123456-78-9" 14 w).
  - vm_compute; reflexivity.
  - evaluated.
Defined.

(** X4: Whichever write fails, a return never removes the active loan without
    having given the copy back in [books_by_id] and marked the two history
    rows as returned. *)
Theorem return_book_gives_copy_back_first now user_id isbn_ w book t :
  let d' := db (return_book now user_id isbn_ w).2 in
  books_by_id (db w) !! isbn_ = Some book →
  is_Some (active_borrows_by_user (db w) !! (user_id, t, isbn_)) →
  active_borrows_by_user d' !! (user_id, t, isbn_) = None →
  available_copies <$> books_by_id d' !! isbn_
    = Some (Some (returned_copies book))
  ∧ (λ r, (l_status r, l_return_date r))
      <$> borrows_by_user d' !! (user_id, t, isbn_)
      = Some (Some "RETURNED", Some now)
  ∧ (λ r, (l_status r, l_return_date r))
      <$> borrows_by_book d' !! (isbn_, t, user_id)
      = Some (Some "RETURNED", Some now).
Proof.
  intros d' Hbook Hsome Hnone. subst d'.
  destruct (return_book_along now user_id isbn_ w)
    as [Heq|(m & book' & user & Hfind & Hbook' & Huser & Hin)].
  { rewrite Heq in Hnone. rewrite Hnone in Hsome. by destruct Hsome. }
  simplify_eq. revert Hnone.
  generalize dependent (db (return_book now user_id isbn_ w).2).
  intros d' Hin Hnone.
  along book Hin; simpl in *;
    try (rewrite Hnone in Hsome; by destruct Hsome).
  all: apply lookup_delete_None in Hnone as [Hkey|Hnone];
    [|rewrite Hnone in Hsome; by destruct Hsome].
  all: simplify_eq; unfold upsert; by rewrite Hbook, !lookup_insert_eq.
Qed.

Lemma return_book_gives_copy_back_first_witness :
  let isbn_ := "978-0-123456-78-9" in
  let w0 := (borrow_book 2000 reader isbn_ 14 (World shelf [])).2 in
  let w := World (db w0) [None; None; None; None; None; None; Some "down"] in
  let d' := db (return_book 3000 reader isbn_ w).2 in
  (return_book 3000 reader isbn_ w).1
    = Returned {| ok := false; message := "Erreur retour: down" |}
  ∧ available_copies <$> books_by_id d' !! isbn_ = Some (Some 3)
  ∧ (λ r, (l_status r, l_return_date r))
      <$> borrows_by_user d' !! (reader, 2000, isbn_)
      = Some (Some "RETURNED", Some 3000)
  ∧ (λ r, (l_status r, l_return_date r))
      <$> borrows_by_book d' !! (isbn_, 2000, reader)
      = Some (Some "RETURNED", Some 3000).
Proof.
  intros isbn_ w0 w d'. split; [vm_compute; reflexivity|].
  refine (return_book_gives_copy_back_first 3000 reader isbn_ w
            (BookRow (Some "Dune") (Some "Frank Herbert")
               (Some "Science Fiction") (Some "Ace") (Some 1965) (Some 3)
               (Some 2) (Some "Roman SF classique")) 2000 _ _ _).
  - vm_compute; reflexivity.
  - evaluated.
  - vm_compute; reflexivity.
Defined.

(** X5: A borrow or a return that does not answer [ok] has not touched the
    patrons' counters: the counters are the last write of the fan-out. *)
Theorem counters_change_only_on_success r w :
  succeeded (perform r w).1 = false →
  users_by_id (db (perform r w).2) = users_by_id (db w).
Proof.
  intros Hko. destruct r as [now u i days|now u i]; simpl in *.
  - destruct (borrow_book_cases now u i days w)
      as [[-> _]|(book & copies & user & due & _ & _ & _ & _ & _ & Hrun)];
      [done|].
    destruct Hrun as [(d' & _ & _ & Hrun)|(e & w' & Hrun & Hin)];
      rewrite Hrun in *; [done|]. cbn [snd].
    eapply (states_along_keeps (λ d, users_by_id d = users_by_id (db w)));
      [|done|exact Hin].
    unfold borrow_plan. cbn [removelast].
    repeat constructor; intros d d' HI Hst; by statement_inv Hst.
  - destruct (return_book_cases now u i w)
      as [[-> _]|(m & book & user & _ & _ & _ & Hrun)]; [done|].
    destruct Hrun as [(d' & _ & _ & Hrun)|(e & w' & Hrun & Hin)];
      rewrite Hrun in *; [done|]. cbn [snd].
    eapply (states_along_keeps (λ d, users_by_id d = users_by_id (db w)));
      [|done|exact Hin].
    unfold return_plan. cbn [removelast].
    repeat constructor; intros d d' HI Hst; by statement_inv Hst.
Qed.

Lemma counters_change_only_on_success_witness :
  let r := Borrow 2000 reader "978-0-123456-78-9" 14 in
  let w := World shelf [None; None; None; None; None; Some "timeout"] in
  succeeded (perform r w).1 = false
  ∧ users_by_id (db (perform r w).2) = users_by_id (db w).
Proof.
  intros r w.
  assert (succeeded (perform r w).1 = false) as H by (vm_compute; reflexivity).
  split; [exact H|]. exact (counters_change_only_on_success r w H).
Defined.

(** ** What the engine never touches *)
Lemma serve_keeps (I : database → Prop) rs w :
  (∀ r, keeps I (perform r)) → I (db w) → I (db (serve rs w).2).
Proof.
  intros Hr. revert w. induction rs as [|r rs IH]; intros w HI; [done|].
  simpl. destruct (perform r w) as [o w1] eqn:Hp.
  destruct (serve rs w1) as [os w2] eqn:Hs. simpl.
  replace w2 with (serve rs w1).2 by by rewrite Hs.
  apply IH. replace w1 with (perform r w).2 by by rewrite Hp.
  by apply Hr.
Qed.

Ltac other_key :=
  match goal with
  | |- ?k ≠ ?k' => intros ?; simplify_eq/=; intuition congruence
  end.

(** X6: A borrow or a return, whatever becomes of it, leaves alone the email
    table and every row of another book or another patron. *)
Theorem perform_same_elsewhere r w :
  same_elsewhere r (db w) (db (perform r w).2).
Proof.
  assert (keeps (same_elsewhere r (db w)) (perform r)) as Hkeeps.
  { destruct r as [now u i days|now u i]; simpl;
      unfold borrow_book, return_book; keeps_steps.
    all: intros d d' (H1 & H2 & H3 & H4 & H5) Hst; statement_inv Hst.
    all: repeat split; simpl in *; intros; unfold upsert;
      rewrite ?lookup_insert_ne, ?lookup_delete_ne by other_key;
      try done; try (by apply H2); try (by apply H3); try (by apply H4);
      try (by apply H5). }
  apply Hkeeps. by repeat split.
Qed.

(** X7: The history tables only grow: whatever is served and whatever fails,
    a loan once recorded in [borrows_by_user] or [borrows_by_book] is
    still there. *)
Theorem history_only_grows rs w user_id t isbn_ :
  is_Some (borrows_by_user (db w) !! (user_id, t, isbn_)) →
  is_Some (borrows_by_book (db w) !! (isbn_, t, user_id)) →
  is_Some (borrows_by_user (db (serve rs w).2) !! (user_id, t, isbn_))
  ∧ is_Some (borrows_by_book (db (serve rs w).2) !! (isbn_, t, user_id)).
Proof.
  intros Hu Hb.
  apply (serve_keeps
           (λ d, is_Some (borrows_by_user d !! (user_id, t, isbn_))
                 ∧ is_Some (borrows_by_book d !! (isbn_, t, user_id))));
    [|done].
  intros [now u i days|now u i]; simpl;
    unfold borrow_book, return_book; keeps_steps.
  all: intros d d' [H1 H2] Hst; statement_inv Hst; try done.
  all: split; simpl; try done; unfold upsert;
    apply lookup_insert_is_Some';  by right.
Qed.

Lemma history_only_grows_witness :
  let isbn_ := "978-0-123456-78-9" in
  let w := (borrow_book 2000 reader isbn_ 14 (World shelf [])).2 in
  let rs := [Return 3000 reader isbn_; Borrow 3500 reader isbn_ 14;
             Return 4000 other_reader isbn_] in
  is_Some (borrows_by_user (db (serve rs w).2) !! (reader, 2000, isbn_))
  ∧ is_Some (borrows_by_book (db (serve rs w).2) !! (isbn_, 2000, reader)).
Proof.
  intros isbn_ w rs.
  apply (history_only_grows rs w reader 2000 isbn_).
  - evaluated.
  - evaluated.
Defined.

Lemma perform_keeps_copies_in_range i r :
  keeps (λ d, copies_in_range d i = true) (perform r).
Proof.
  intros w Hc. unfold copies_in_range in Hc.
  destruct (books_by_id (db w) !! i) as [bk|] eqn:Hbk; [|done].
  destruct (available_copies bk) as [av|] eqn:Hav; [|done].
  destruct (total_copies bk) as [tot|] eqn:Htot; [|done].
  apply bool_decide_eq_true in Hc.
  pose (J := λ d : database,
          ∃ bk', books_by_id d !! i = Some bk'
                 ∧ total_copies bk' = Some tot
                 ∧ ∃ a, available_copies bk' = Some a ∧ 0 ≤ a ≤ tot).
  assert (J (db w)) as HJ by (exists bk; eauto).
  assert (∀ i' v d, (i' = i → 0 ≤ v ≤ tot) → J d →
            J (with_books_by_id
                 (upsert blank_book (book_set_available (Some v)) i') d))
    as Hstep.
  { intros i' v d Hv (bk' & Hbk' & Htot' & a & Ha & Hrange).
    unfold J. simpl. unfold upsert.
    destruct (decide (i' = i)) as [->|Hne].
    - rewrite lookup_insert_eq, Hbk'. simpl. eauto 10.
    - rewrite lookup_insert_ne by done. eauto 10. }
  assert (∀ d, J d → copies_in_range d i = true) as Hfin.
  { intros d (bk' & Hbk' & Htot' & a & Ha & Hrange).
    unfold copies_in_range. rewrite Hbk', Ha, Htot'.
    by apply bool_decide_eq_true. }
  apply Hfin.
  destruct r as [now u i' days|now u i']; simpl.
  - destruct (borrow_book_along now u i' days w)
      as [->|(book & copies & user & due & Hbook & Hcopies & Hpos & _ & _
              & Hin)]; [done|].
    apply (states_along_keeps J _ _ _) with (3 := Hin); [|done].
    unfold borrow_plan. repeat constructor; intros d d' HI Hst;
      statement_inv Hst; try exact HI.
    apply Hstep; [|done]. intros ->. simplify_eq. lia.
  - destruct (return_book_along now u i' w)
      as [->|(m & book & user & _ & Hbook & _ & Hin)]; [done|].
    apply (states_along_keeps J _ _ _) with (3 := Hin); [|done].
    unfold return_plan. repeat constructor; intros d d' HI Hst;
      statement_inv Hst; try exact HI.
    apply Hstep; [|done]. intros ->. simplify_eq.
    unfold returned_copies. rewrite Htot, Hav. simpl. lia.
Qed.

(** X8: [0 ≤ available_copies ≤ total_copies] survives every sequence of
    requests, also those whose writes are cut short by a failure. *)
Theorem copies_in_range_whatever_fails rs w isbn_ :
  copies_in_range (db w) isbn_ = true →
  copies_in_range (db (serve rs w).2) isbn_ = true.
Proof.
  apply (serve_keeps (λ d, copies_in_range d isbn_ = true)).
  intros r. apply perform_keeps_copies_in_range.
Qed.

Lemma copies_in_range_whatever_fails_witness :
  let isbn_ := "978-0-123456-78-9" in
  let rs := [Borrow 2000 reader isbn_ 14; Return 3000 reader isbn_;
             Return 3500 reader isbn_] in
  let w := World shelf [None; Some "timeout"; None; None; None; None; None;
                        None; Some "timeout"] in
  forallb succeeded (serve rs w).1 = false
  ∧ copies_in_range (db (serve rs w).2) isbn_ = true.
Proof.
  intros isbn_ rs w. split; [vm_compute; reflexivity|].
  apply (copies_in_range_whatever_fails rs w isbn_).
  vm_compute; reflexivity.
Defined.

(** ** The book repository *)
Lemma elem_of_view_partition p m k r :
  (k, r) ∈ BookRepository.view_partition p m ↔ k.1.1 = p ∧ m !! k = Some r.
Proof.
  unfold BookRepository.view_partition.
  rewrite (merge_sort_Permutation BookRepository.view_clustering_le).
  rewrite list_elem_of_filter, elem_of_map_to_list. done.
Qed.

(** X9: A book that [add_book] reports as added is found by its ISBN, in the
    partition of its category and in the partition of its author, with the
    columns it was given. *)
Theorem add_book_then_found book w :
  let w' := (BookRepository.add_book book w).2 in
  (BookRepository.add_book book w).1 = Returned true →
  (BookRepository.get_book_by_isbn (BookRepository.isbn book) w').1
    = Returned
        (Some (BookRow (Some (BookRepository.title book))
                 (Some (BookRepository.author book))
                 (Some (BookRepository.category book))
                 (Some (BookRepository.publisher book))
                 (Some (BookRepository.publication_year book))
                 (Some (BookRepository.total_copies book))
                 (Some (BookRepository.available_copies book))
                 (Some (BookRepository.description book))))
  ∧ ((BookRepository.category book, BookRepository.title book,
      BookRepository.isbn book,
      ViewRow (Some (BookRepository.author book))
        (Some (BookRepository.publication_year book))
        (Some (BookRepository.available_copies book))
        (Some (BookRepository.total_copies book)))
     ∈ BookRepository._sel_by_category (BookRepository.category book)
         (db w'))
  ∧ ((BookRepository.author book, BookRepository.title book,
      BookRepository.isbn book,
      ViewRow (Some (BookRepository.category book))
        (Some (BookRepository.publication_year book))
        (Some (BookRepository.available_copies book))
        (Some (BookRepository.total_copies book)))
     ∈ BookRepository._sel_by_author (BookRepository.author book) (db w')).
Proof.
  intros w'. subst w'. destruct w as [d fs].
  destruct fs as [|[m|] [|[m'|] [|[m''|] fs]]]; try (by intros [=]);
    intros _; simpl.
  all: unfold BookRepository._sel_by_isbn, BookRepository._sel_by_category,
         BookRepository._sel_by_author; simpl.
  all: rewrite lookup_insert_eq, !elem_of_view_partition, !lookup_insert_eq.
  all: done.
Qed.

Lemma add_book_then_found_witness :
  let res := BookRepository.add_book dune (World empty_db []) in
  (BookRepository.get_book_by_isbn "978-0-123456-78-9" res.2).1
    = Returned
        (Some (BookRow (Some "Dune") (Some "Frank Herbert")
                 (Some "Science Fiction") (Some "Ace") (Some 1965) (Some 3)
                 (Some 3) (Some "Roman SF classique")))
  ∧ (("Science Fiction", "Dune", "978-0-123456-78-9",
      ViewRow (Some "Frank Herbert") (Some 1965) (Some 3) (Some 3))
     ∈ BookRepository._sel_by_category "Science Fiction" (db res.2))
  ∧ (("Frank Herbert", "Dune", "978-0-123456-78-9",
      ViewRow (Some "Science Fiction") (Some 1965) (Some 3) (Some 3))
     ∈ BookRepository._sel_by_author "Frank Herbert" (db res.2)).
Proof.
  intros res.
  apply (add_book_then_found dune (World empty_db [])). reflexivity.
Defined.

(** X10: Whichever insert fails, [add_book] never files a book in a view
    without the rows it writes before: a book newly filed by author is
    filed by category, and a book newly filed by category is in
    [books_by_id]. *)
Theorem add_book_files_in_order book w :
  let d' := db (BookRepository.add_book book w).2 in
  let kc := (BookRepository.category book, BookRepository.title book,
             BookRepository.isbn book) in
  let ka := (BookRepository.author book, BookRepository.title book,
             BookRepository.isbn book) in
  (books_by_author d' !! ka ≠ books_by_author (db w) !! ka →
   is_Some (books_by_category d' !! kc)
   ∧ (BookRepository.add_book book w).1 = Returned true)
  ∧ (books_by_category d' !! kc ≠ books_by_category (db w) !! kc →
     is_Some (books_by_id d' !! BookRepository.isbn book)).
Proof.
  intros d' kc ka. subst d' kc ka. destruct w as [d fs].
  destruct fs as [|[m|] [|[m'|] [|[m''|] fs]]]; simpl; split; try done.
  all: intros _; rewrite ?lookup_insert_eq; eauto.
Qed.

Lemma add_book_files_in_order_witness :
  let w := World empty_db [None; None; Some "timeout"] in
  (BookRepository.add_book dune w).1 = Returned false
  ∧ is_Some (books_by_id (db (BookRepository.add_book dune w).2)
               !! "978-0-123456-78-9").
Proof.
  intros w. split; [reflexivity|].
  assert (books_by_category (db (BookRepository.add_book dune w).2)
            !! ("Science Fiction", "Dune", "978-0-123456-78-9")
          ≠ books_by_category (db w)
              !! ("Science Fiction", "Dune", "978-0-123456-78-9")) as Hnew
    by (vm_compute; discriminate).
  exact (proj2 (add_book_files_in_order dune w) Hnew).
Defined.

(** X11: [add_book] never removes a row: adding an ISBN again under another
    category or title leaves the row filed under the old ones, and the old
    partition still lists the ISBN. *)
Theorem add_book_leaves_stale_row book w category0 title0 row :
  let d' := db (BookRepository.add_book book w).2 in
  books_by_category (db w) !! (category0, title0, BookRepository.isbn book)
    = Some row →
  (category0, title0)
    ≠ (BookRepository.category book, BookRepository.title book) →
  (category0, title0, BookRepository.isbn book, row)
    ∈ BookRepository._sel_by_category category0 d'.
Proof.
  intros d' Hrow Hne. subst d'.
  apply elem_of_view_partition. split; [done|].
  destruct w as [d fs]. simpl in Hrow.
  destruct fs as [|[m|] [|[m'|] [|[m''|] fs]]]; simpl; try done.
  all: rewrite lookup_insert_ne; [done|congruence].
Qed.

Lemma add_book_leaves_stale_row_witness :
  let again := {|
    BookRepository.isbn := "978-0-123456-78-9";
    BookRepository.title := "Dune";
    BookRepository.author := "Frank Herbert";
    BookRepository.category := "SF";
    BookRepository.publisher := "Ace";
    BookRepository.publication_year := 1965;
    BookRepository.total_copies := 5;
    BookRepository.available_copies := 5;
    BookRepository.description := ""
  |} in
  let res := BookRepository.add_book again (World shelf []) in
  res.1 = Returned true
  ∧ ("Science Fiction", "Dune", "978-0-123456-78-9",
     ViewRow (Some "Frank Herbert") (Some 1965) (Some 3) (Some 3))
    ∈ BookRepository._sel_by_category "Science Fiction" (db res.2).
Proof.
  intros again res. split; [reflexivity|].
  apply (add_book_leaves_stale_row again (World shelf []) "Science Fiction"
           "Dune").
  - vm_compute; reflexivity.
  - discriminate.
Defined.

(** X12: [add_book] stores the two counters as it is given them, without a
    check: the book it reports as added has its copies within its total
    exactly when the [Book] passed had. *)
Theorem add_book_copies_as_given book w :
  (BookRepository.add_book book w).1 = Returned true →
  copies_in_range (db (BookRepository.add_book book w).2)
    (BookRepository.isbn book)
  = bool_decide (0 ≤ BookRepository.available_copies book
                   ≤ BookRepository.total_copies book).
Proof.
  destruct w as [d fs].
  destruct fs as [|[m|] [|[m'|] [|[m''|] fs]]]; try (by intros [=]);
    intros _; unfold copies_in_range; simpl; by rewrite lookup_insert_eq.
Qed.

Lemma add_book_copies_as_given_witness :
  let book := {|
    BookRepository.isbn := "978-0-000000-00-0";
    BookRepository.title := "Errata";
    BookRepository.author := "Anonyme";
    BookRepository.category := "Science";
    BookRepository.publisher := "Seuil";
    BookRepository.publication_year := 2001;
    BookRepository.total_copies := -1;
    BookRepository.available_copies := -1;
    BookRepository.description := ""
  |} in
  copies_in_range (db (BookRepository.add_book book (World shelf [])).2)
    "978-0-000000-00-0" = false.
Proof.
  intros book.
  exact (add_book_copies_as_given book (World shelf []) eq_refl).
Defined.

(** ** The user repository *)

(** X13: A patron that [create_user] returns is read back by [get_user] with
    the fields given, the registration date, and both counters at zero;
    nothing else changes in [users_by_id] and [users_by_email]. *)
Theorem create_user_then_get_user user_id registration_date email_
    first_name_ last_name_ phone_ address_ w :
  let res := UserRepository.create_user user_id registration_date email_
               first_name_ last_name_ phone_ address_ w in
  res.1 = Returned user_id →
  (UserRepository.get_user user_id res.2).1
    = Returned
        (Some (UserRow (Some email_) (Some first_name_) (Some last_name_)
                 (Some phone_) (Some address_) (Some registration_date)
                 (Some 0) (Some 0)))
  ∧ (∀ u, u ≠ user_id →
       (UserRepository.get_user u res.2).1 = (UserRepository.get_user u w).1)
  ∧ (∀ e, e ≠ email_ →
       (UserRepository.get_user_id_by_email e res.2).1
         = (UserRepository.get_user_id_by_email e w).1).
Proof.
  intros res. subst res. destruct w as [d fs].
  destruct fs as [|[m|] [|[m'|] fs]]; try (by intros [=]); intros _; simpl.
  all: unfold UserRepository.get_user, UserRepository.get_user_id_by_email,
         UserRepository._sel, query; simpl.
  all: rewrite lookup_insert_eq.
  all: split; [done|]; split; intros x Hx; unfold mbind, M_bind; simpl;
       by rewrite lookup_insert_ne.
Qed.

Lemma create_user_then_get_user_witness :
  let res := UserRepository.create_user 9%N 2000 "e@x.com" "Eve" "Xu" "06"
               "Paris" (World shelf []) in
  (UserRepository.get_user 9%N res.2).1
    = Returned
        (Some (UserRow (Some "e@x.com") (Some "Eve") (Some "Xu") (Some "06")
                 (Some "Paris") (Some 2000) (Some 0) (Some 0)))
  ∧ (∀ u, u ≠ 9%N →
       (UserRepository.get_user u res.2).1
         = (UserRepository.get_user u (World shelf [])).1)
  ∧ (∀ e, e ≠ "e@x.com" →
       (UserRepository.get_user_id_by_email e res.2).1
         = (UserRepository.get_user_id_by_email e (World shelf [])).1).
Proof.
  intros res.
  apply (create_user_then_get_user 9%N 2000 "e@x.com" "Eve" "Xu" "06"
           "Paris" (World shelf [])).
  reflexivity.
Defined.

(** X14: When its second insert fails, [create_user] raises the failure and the
    patron row written by the first insert stays: the patron is read back
    by identifier, while the email table is as it was. *)
Theorem create_user_half_done user_id registration_date email_ first_name_
    last_name_ phone_ address_ d msg fs :
  let res := UserRepository.create_user user_id registration_date email_
               first_name_ last_name_ phone_ address_
               (World d (None :: Some msg :: fs)) in
  res.1 = Raised (DriverError msg)
  ∧ is_Some (users_by_id (db res.2) !! user_id)
  ∧ users_by_email (db res.2) = users_by_email d.
Proof. simpl. rewrite lookup_insert_eq. eauto. Qed.

(** X15: [set_counts] followed by [get_user]: the counters read back are the
    ones set, the other columns are kept; for an identifier that has no
    row the write still goes through and leaves a row of nulls with the
    two counters. *)
Theorem set_counts_then_get_user user_id total active w :
  let res := UserRepository.set_counts user_id total active w in
  res.1 = Returned () →
  (UserRepository.get_user user_id res.2).1
    = Returned
        (Some (user_set_counts (Some total) (Some active)
                 (default blank_user (users_by_id (db w) !! user_id))))
  ∧ ∀ u, u ≠ user_id →
      (UserRepository.get_user u res.2).1 = (UserRepository.get_user u w).1.
Proof.
  intros res. subst res. destruct w as [d fs].
  destruct fs as [|[m|] fs]; try (by intros [=]); intros _; simpl.
  all: unfold UserRepository.get_user, UserRepository._sel, query, upsert;
       simpl.
  all: rewrite lookup_insert_eq; split; [done|]; intros u Hu;
       by rewrite lookup_insert_ne.
Qed.

Lemma set_counts_then_get_user_witness :
  let res := UserRepository.set_counts 99%N 4 1 (World shelf []) in
  users_by_id shelf !! 99%N = None
  ∧ (UserRepository.get_user 99%N res.2).1
      = Returned
          (Some (UserRow None None None None None None (Some 4) (Some 1))).
Proof.
  intros res.
  assert (users_by_id shelf !! 99%N = None) as Hnone
    by (vm_compute; reflexivity).
  split; [exact Hnone|].
  destruct (set_counts_then_get_user 99%N 4 1 (World shelf []) eq_refl)
    as [H _].
  etransitivity; [exact H|].
  change (db (World shelf [])) with shelf. by rewrite Hnone.
Defined.

(** ** Emails resolve *)
Lemma emails_resolve_users d f :
  (∀ u, is_Some (users_by_id d !! u) → is_Some (f (users_by_id d) !! u)) →
  emails_resolve d → emails_resolve (with_users_by_id f d).
Proof.
  intros Hf Hres e r Her. destruct (Hres e r Her) as (u & Hu & Hsome).
  exists u. split; [done|]. by apply Hf.
Qed.

Ltac keeps_emails :=
  intros d d' HI Hst; statement_inv Hst;
  first
    [ exact HI
    | apply emails_resolve_users;
      [intros ? ?; unfold upsert; apply lookup_insert_is_Some'; by right
      |exact HI] ].

Lemma emails_resolve_shelf : emails_resolve shelf.
Proof.
  unfold emails_resolve, shelf. cbn [users_by_email users_by_id].
  apply map_Forall_insert_2; [|apply map_Forall_singleton].
  - exists reader. split; [done|]. evaluated.
  - exists other_reader. split; [done|]. evaluated.
Qed.

Lemma create_user_keeps_emails user_id registration_date email_ first_name_
    last_name_ phone_ address_ :
  keeps emails_resolve
    (UserRepository.create_user user_id registration_date email_ first_name_
       last_name_ phone_ address_).
Proof.
  intros [d fs] HI. simpl in HI.
  assert (emails_resolve
            (with_users_by_id
               <[user_id := UserRow (Some email_) (Some first_name_)
                              (Some last_name_) (Some phone_)
                              (Some address_) (Some registration_date)
                              (Some 0) (Some 0)]> d))
    as H1.
  { apply emails_resolve_users; [|done].
    intros u Hu. apply lookup_insert_is_Some'. by right. }
  destruct fs as [|[m|] [|[m'|] fs]]; simpl; try done.
  all: intros e' r; simpl;
    intros [[<- <-]|[Hne Her]]%lookup_insert_Some;
    [exists user_id; split; [done|]; simpl; by rewrite lookup_insert_eq
    |by apply (H1 e' r)].
Qed.

Lemma perform_keeps_emails r : keeps emails_resolve (perform r).
Proof.
  destruct r as [now u i days|now u i]; simpl;
    unfold borrow_book, return_book; keeps_steps; keeps_emails.
Qed.

(** X16: Whatever fails, no operation of the three repositories leaves an email
    that resolves to a patron [users_by_id] does not have: [create_user]
    writes the patron row before the email row, and nothing deletes a
    patron. *)
Theorem emails_always_resolve w :
  emails_resolve (db w) →
  (∀ user_id registration_date email_ first_name_ last_name_ phone_
     address_,
     emails_resolve
       (db (UserRepository.create_user user_id registration_date email_
              first_name_ last_name_ phone_ address_ w).2))
  ∧ (∀ user_id total active,
       emails_resolve
         (db (UserRepository.set_counts user_id total active w).2))
  ∧ (∀ book, emails_resolve (db (BookRepository.add_book book w).2))
  ∧ (∀ rs, emails_resolve (db (serve rs w).2)).
Proof.
  intros HI. split; [|split; [|split]].
  - intros. by apply create_user_keeps_emails.
  - intros user_id total active. revert w HI.
    unfold UserRepository.set_counts. keeps_steps.
    intros d d' HI [= <-]. apply emails_resolve_users; [|done].
    intros u Hu. unfold upsert. apply lookup_insert_is_Some'. by right.
  - intros book. revert w HI. unfold BookRepository.add_book. keeps_steps.
    all: by intros d d' HI [= <-].
  - intros rs. apply (serve_keeps emails_resolve); [|done].
    apply perform_keeps_emails.
Qed.

Lemma emails_always_resolve_witness :
  emails_resolve
    (db (UserRepository.create_user 9%N 1500 "noe@example.com" "Lea"
           "Marchand" "" "" (World shelf [None; Some "timeout"])).2).
Proof.
  exact (proj1 (emails_always_resolve (World shelf [None; Some "timeout"])
                  emails_resolve_shelf)
           9%N 1500 "noe@example.com" "Lea" "Marchand" "" "").
Defined.

(** ** The partition read is in loan-start order *)
Lemma clustering_le_total : Total clustering_le.
Proof.
  intros r1 r2. unfold clustering_le, clustering_leb.
  destruct (Z.ltb_spec (borrow_date r1) (borrow_date r2)); [by left|].
  destruct (Z.ltb_spec (borrow_date r2) (borrow_date r1)); [by right|].
  assert (borrow_date r1 = borrow_date r2) as -> by lia.
  rewrite Z.eqb_refl. simpl.
  destruct (String.leb_total (isbn r1) (isbn r2)); [by left|by right].
Qed.

Lemma clustering_le_borrow_date r1 r2 :
  clustering_le r1 r2 → borrow_date r1 ≤ borrow_date r2.
Proof.
  unfold clustering_le, clustering_leb.
  intros [H|[H _]%andb_true_iff]%orb_true_iff; lia.
Qed.

Lemma Sorted_weaken {A} (R R' : relation A) l :
  (∀ x y, R x y → R' x y) → Sorted R l → Sorted R' l.
Proof.
  intros HR. induction 1 as [|x l _ IH Hhd]; constructor; [done|].
  destruct Hhd; constructor; auto.
Qed.

Lemma sel_active_sorted u d :
  StronglySorted (λ r1 r2, borrow_date r1 ≤ borrow_date r2)
    (_sel_active_by_user u d).
Proof.
  apply Sorted_StronglySorted; [intros x y z; lia|].
  apply (Sorted_weaken clustering_le); [apply clustering_le_borrow_date|].
  pose proof clustering_le_total as Htotal.
  apply (Sorted_merge_sort clustering_le).
Qed.

Lemma find_first_of_sorted {A} (R : relation A) (P : A → bool) l m :
  Reflexive R → StronglySorted R l → find P l = Some m →
  ∀ r, r ∈ l → P r = true → R m r.
Proof.
  intros HR Hl. induction Hl as [|x l Hl IH Hall]; [done|]. simpl.
  destruct (P x) eqn:HP.
  - intros [= <-] r [->|Hr]%elem_of_cons _; [done|].
    rewrite Forall_forall in Hall. by apply Hall.
  - intros Hfind r [->|Hr]%elem_of_cons HPr; [congruence|]. by apply IH.
Qed.

Lemma find_head_filter {A} (P : A → Prop) `{!∀ x, Decision (P x)} l m :
  find (λ r, bool_decide (P r)) l = Some m → ∃ rest, filter P l = m :: rest.
Proof.
  induction l as [|x l IH]; [done|]. simpl. rewrite filter_cons.
  destruct (decide (P x)) as [Hx|Hx].
  - rewrite bool_decide_eq_true_2 by done. intros [= <-]. eauto.
  - rewrite bool_decide_eq_false_2 by done. apply IH.
Qed.

(** X17: A successful return closes the first of the patron's open loans on the
    ISBN, in the order in which the partition is read: it deletes that
    active-loan row and no other.  The partition being read by ascending
    loan start, no open loan on the ISBN is older. *)
Theorem return_book_closes_first_loan now user_id isbn_ w :
  succeeded (return_book now user_id isbn_ w).1 = true →
  ∃ m rest,
    open_loans (db w) user_id isbn_ = m :: rest
    ∧ active_borrows_by_user (db (return_book now user_id isbn_ w).2)
      = delete (user_id, borrow_date m, isbn_)
          (active_borrows_by_user (db w))
    ∧ ∀ r, r ∈ rest → borrow_date m ≤ borrow_date r.
Proof.
  intros Hok.
  destruct (return_book_succeeded now user_id isbn_ w _ _
              (surjective_pairing _) Hok)
    as (m & book & user & c & t & a & v & Hfind & _ & _ & _ & _ & _ & _ & _
        & _ & _ & _ & _ & Hact).
  destruct (find_head_filter (λ r, isbn r = isbn_) _ _ Hfind)
    as [rest Hrest].
  exists m, rest. split; [done|]. split; [done|].
  intros r Hr.
  assert (r ∈ open_loans (db w) user_id isbn_) as Hin.
  { unfold open_loans. rewrite Hrest. by apply list_elem_of_further. }
  apply list_elem_of_filter in Hin as [Hi Hin].
  apply (find_first_of_sorted (λ r1 r2, borrow_date r1 ≤ borrow_date r2)
           (λ r, bool_decide (isbn r = isbn_))
           (_sel_active_by_user user_id (db w)) m);
    [intros x; reflexivity|apply sel_active_sorted|done|done|].
  by apply bool_decide_eq_true.
Qed.

Lemma return_book_closes_first_loan_witness :
  let isbn_ := "978-0-123456-78-9" in
  let w := (serve [Borrow 2500 reader isbn_ 14; Borrow 2000 reader isbn_ 14]
              (World shelf [])).2 in
  succeeded (return_book 3000 reader isbn_ w).1 = true
  ∧ ∃ m rest,
      open_loans (db w) reader isbn_ = m :: rest
      ∧ active_borrows_by_user (db (return_book 3000 reader isbn_ w).2)
        = delete (reader, borrow_date m, isbn_)
            (active_borrows_by_user (db w))
      ∧ ∀ r, r ∈ rest → borrow_date m ≤ borrow_date r.
Proof.
  intros isbn_ w.
  assert (succeeded (return_book 3000 reader isbn_ w).1 = true) as H
    by (vm_compute; reflexivity).
  split; [exact H|].
  exact (return_book_closes_first_loan 3000 reader isbn_ w H).
Defined.

(** ** A borrow, then the return *)
Lemma borrow_book_done now u i days w :
  succeeded (borrow_book now u i days w).1 = true →
  ∃ book copies user due d',
    books_by_id (db w) !! i = Some book
    ∧ available_copies book = Some copies ∧ 0 < copies
    ∧ users_by_id (db w) !! u = Some user
    ∧ add_days now days = inr due
    ∧ apply_all (borrow_plan now u i book user copies due) (db w) = inr d'
    ∧ db (borrow_book now u i days w).2 = d'.
Proof.
  intros Hok.
  destruct (borrow_book_cases now u i days w)
    as [[_ Hko]|(book & copies & user & due & ? & ? & ? & ? & ? & Hrun)];
    [congruence|].
  destruct Hrun as [(d' & Happ & _ & Hrun)|(e & w' & Hrun & _)];
    rewrite Hrun in *; [|done].
  by exists book, copies, user, due, d'.
Qed.

Lemma return_book_done now u i w :
  succeeded (return_book now u i w).1 = true →
  ∃ m book user d',
    find (λ r, bool_decide (isbn r = i)) (_sel_active_by_user u (db w))
      = Some m
    ∧ books_by_id (db w) !! i = Some book
    ∧ users_by_id (db w) !! u = Some user
    ∧ apply_all (return_plan now u i book user (borrow_date m)) (db w)
      = inr d'
    ∧ db (return_book now u i w).2 = d'.
Proof.
  intros Hok.
  destruct (return_book_cases now u i w)
    as [[_ Hko]|(m & book & user & ? & ? & ? & Hrun)]; [congruence|].
  destruct Hrun as [(d' & Happ & _ & Hrun)|(e & w' & Hrun & _)];
    rewrite Hrun in *; [|done].
  by exists m, book, user, d'.
Qed.

(** X18: A loan taken shows up in the patron's active loans, due [loan_days]
    days after its start. *)
Theorem borrow_book_then_active_loans now user_id isbn_ loan_days w :
  succeeded (borrow_book now user_id isbn_ loan_days w).1 = true →
  ∃ book loans,
    books_by_id (db w) !! isbn_ = Some book
    ∧ (get_active_borrows_by_user user_id
         (borrow_book now user_id isbn_ loan_days w).2).1 = Returned loans
    ∧ (user_id,
       {| borrow_date := now; isbn := isbn_; book_title := title book;
          due_date := Some (now + loan_days * DAY_MS) |}) ∈ loans.
Proof.
  intros Hok.
  destruct (borrow_book_succeeded now user_id isbn_ loan_days w _ _
              (surjective_pairing _) Hok)
    as (book & user & copies & c & t & a & due & Hbook & _ & _ & _ & _ & Ht
        & _ & Hadd & _ & _ & _ & _ & _ & Hact).
  exists book. eexists. split; [done|]. split; [done|].
  apply list_elem_of_fmap. eexists. split; [done|].
  apply elem_of_sel_active. simpl. rewrite Hact, lookup_insert_eq, Ht.
  unfold add_days in Hadd. repeat case_bool_decide; by simplify_eq.
Qed.

Lemma borrow_book_then_active_loans_witness :
  let w := World shelf [] in
  succeeded (borrow_book 2000 reader "978-0-123456-78-9" 14 w).1 = true
  ∧ ∃ book loans,
      books_by_id (db w) !! "978-0-123456-78-9" = Some book
      ∧ (get_active_borrows_by_user reader
           (borrow_book 2000 reader "978-0-123456-78-9" 14 w).2).1
        = Returned loans
      ∧ (reader,
         {| borrow_date := 2000; isbn := "978-0-123456-78-9";
            book_title := title book;
            due_date := Some (2000 + 14 * DAY_MS) |}) ∈ loans.
Proof.
  intros w.
  assert (succeeded (borrow_book 2000 reader "978-0-123456-78-9" 14 w).1
          = true) as H by (vm_compute; reflexivity).
  split; [exact H|].
  exact (borrow_book_then_active_loans 2000 reader "978-0-123456-78-9" 14 w
           H).
Defined.

(** X19: A successful borrow followed by a successful return, by a patron who
    held no loan on the ISBN: the book row and the active-loan table are
    back to what they were (the copies are within the total), the patron
    has one borrow more in [total_borrows] and the same [active_borrows],
    and the history row of the loan is closed with the return date. *)
Theorem borrow_then_return_round_trip now1 now2 user_id isbn_ loan_days w
    book copies total user n a :
  let w1 := (borrow_book now1 user_id isbn_ loan_days w).2 in
  let w2 := (return_book now2 user_id isbn_ w1).2 in
  open_loans (db w) user_id isbn_ = [] →
  books_by_id (db w) !! isbn_ = Some book →
  available_copies book = Some copies →
  total_copies book = Some total → copies ≤ total →
  users_by_id (db w) !! user_id = Some user →
  total_borrows user = Some n → active_borrows user = Some a → 0 ≤ a →
  succeeded (borrow_book now1 user_id isbn_ loan_days w).1 = true →
  succeeded (return_book now2 user_id isbn_ w1).1 = true →
  books_by_id (db w2) !! isbn_ = Some book
  ∧ active_borrows_by_user (db w2) = active_borrows_by_user (db w)
  ∧ users_by_id (db w2) !! user_id
    = Some (user_set_counts (Some (n + 1)) (Some a) user)
  ∧ borrows_by_user (db w2) !! (user_id, now1, isbn_)
    = Some (LoanRow (title book) None (Some "RETURNED")
              (Some (now1 + loan_days * DAY_MS)) (Some now2)).
Proof.
  intros w1 w2 Hopen Hbook Hcopies Htotal Hle Huser Hn Ha Hpos Hok1 Hok2.
  subst w2.
  assert (no_open_loan user_id isbn_ (db w)) as Hno.
  { intros t.
    destruct (active_borrows_by_user (db w) !! (user_id, t, isbn_))
      as [[bt dd]|] eqn:E; [exfalso|done].
    assert ({| borrow_date := t; isbn := isbn_; book_title := bt;
               due_date := dd |} ∈ open_loans (db w) user_id isbn_) as Hin.
    { apply list_elem_of_filter. split; [done|]. by apply elem_of_sel_active. }
    rewrite Hopen in Hin. by apply elem_of_nil in Hin. }
  destruct (borrow_book_done _ _ _ _ _ Hok1)
    as (book' & copies' & user' & due & d1 & Hbook' & Hcopies' & Hcpos
        & Huser' & Hadd & Happ1 & Hd1).
  simplify_eq.
  destruct (return_book_done _ _ _ _ Hok2)
    as (m & book1 & user1 & d2 & Hfind & Hbook1 & Huser1 & Happ2 & Hd2).
  subst w1. rewrite Hd2. clear Hd2 Hok1 Hok2.
  assert (due = now1 + loan_days * DAY_MS) as ->.
  { unfold add_days in Hadd. repeat case_bool_decide; by simplify_eq. }
  unfold borrow_plan in Happ1. simpl in Happ1.
  destruct (category book) as [c|] eqn:Hc; [|done].
  destruct (title book) as [t|] eqn:Ht; [|done].
  destruct (author book) as [au|] eqn:Hau; [|done].
  simpl in Happ1. injection Happ1 as Hd1.
  rewrite <-Hd1 in Hfind, Hbook1, Huser1, Happ2. clear Hd1.
  apply find_active_Some in Hfind as [Hi Hin].
  apply elem_of_sel_active in Hin. rewrite Hi in Hin.
  assert (borrow_date m = now1) as Hm.
  { simpl in Hin.
    destruct (decide (borrow_date m = now1)) as [|Hne]; [done|].
    rewrite lookup_insert_ne in Hin by congruence.
    by rewrite Hno in Hin. }
  rewrite Hm in Happ2.
  assert (book1 = book_set_available (Some (copies - 1)) book) as ->.
  { simpl in Hbook1. unfold upsert in Hbook1.
    rewrite lookup_insert_eq, Hbook in Hbook1. by simplify_eq. }
  assert (user1 = user_set_counts (Some (n + 1)) (Some (a + 1)) user) as ->.
  { simpl in Huser1. unfold upsert in Huser1.
    rewrite lookup_insert_eq, Huser, Hn, Ha in Huser1. by simplify_eq. }
  unfold return_plan, returned_copies in Happ2. simpl in Happ2.
  rewrite Htotal, Hc, Ht, Hau in Happ2. simpl in Happ2.
  injection Happ2 as <-. simpl. unfold upsert.
  rewrite !lookup_insert_eq. simpl. rewrite Hbook, Huser. simpl.
  rewrite Hn, Ha. simpl.
  split; [|split; [|split]].
  - f_equal. destruct book; simpl in *. simplify_eq.
    unfold book_set_available. simpl. do 2 f_equal. lia.
  - rewrite delete_insert_eq. apply delete_id, Hno.
  - unfold user_set_counts. simpl. do 3 f_equal. lia.
  - done.
Qed.

Lemma borrow_then_return_round_trip_witness :
  let isbn_ := "978-0-123456-78-9" in
  let w := World shelf [] in
  let w1 := (borrow_book 2000 reader isbn_ 14 w).2 in
  let w2 := (return_book 3000 reader isbn_ w1).2 in
  books_by_id (db w2) !! isbn_ = books_by_id shelf !! isbn_
  ∧ active_borrows_by_user (db w2) = active_borrows_by_user shelf
  ∧ total_borrows <$> users_by_id (db w2) !! reader = Some (Some 1)
  ∧ l_status <$> borrows_by_user (db w2) !! (reader, 2000, isbn_)
    = Some (Some "RETURNED").
Proof.
  intros isbn_ w w1 w2.
  pose (book := BookRow (Some "Dune") (Some "Frank Herbert")
                  (Some "Science Fiction") (Some "Ace") (Some 1965) (Some 3)
                  (Some 3) (Some "Roman SF classique")).
  pose (user := UserRow (Some "noe.test.borrow@example.com") (Some "Noe")
                  (Some "BorrowTest") (Some "") (Some "") (Some 1000)
                  (Some 0) (Some 0)).
  assert (books_by_id shelf !! isbn_ = Some book) as Hbook
    by (vm_compute; reflexivity).
  destruct (borrow_then_return_round_trip 2000 3000 reader isbn_ 14 w book
              3 3 user 0 0) as (H1 & H2 & H3 & H4).
  - vm_compute; reflexivity.
  - exact Hbook.
  - reflexivity.
  - reflexivity.
  - lia.
  - vm_compute; reflexivity.
  - reflexivity.
  - reflexivity.
  - lia.
  - vm_compute; reflexivity.
  - vm_compute; reflexivity.
  - subst w2 w1 w. split; [by rewrite Hbook|]. split; [exact H2|].
    split; [by rewrite H3|]. by rewrite H4.
Defined.

(** ** The data generators *)
Lemma add_book_returns book w :
  ∃ b w', BookRepository.add_book book w = (Returned b, w').
Proof. apply (try_except_total _ (λ _, false)). Qed.

Lemma add_book_keeps_books book i :
  keeps (λ d, is_Some (books_by_id d !! i)) (BookRepository.add_book book).
Proof.
  unfold BookRepository.add_book. keeps_steps.
  all: intros d d' HI [= <-]; try done.
  simpl. apply lookup_insert_is_Some'. by right.
Qed.

Lemma add_book_true_stored book w :
  (BookRepository.add_book book w).1 = Returned true →
  is_Some (books_by_id (db (BookRepository.add_book book w).2)
             !! BookRepository.isbn book).
Proof.
  destruct w as [d fs].
  destruct fs as [|[m|] [|[m'|] [|[m''|] fs]]]; try (by intros [=]);
    intros _; simpl; by rewrite lookup_insert_eq.
Qed.

Lemma generate_books_loop_stored draws acc w :
  (∀ i, i ∈ acc → is_Some (books_by_id (db w) !! i)) →
  ∃ isbns,
    (generate_data.generate_books_loop draws acc w).1 = Returned isbns
    ∧ (∀ i, i ∈ isbns →
         is_Some
           (books_by_id
              (db (generate_data.generate_books_loop draws acc w).2) !! i))
    ∧ (∀ i, i ∈ isbns → i ∈ acc ∨ i ∈ generate_data.isbn <$> draws).
Proof.
  revert acc w. induction draws as [|b draws IH]; intros acc w Hacc.
  { exists acc. simpl. split; [done|]. split; [done|]. by left. }
  simpl. unfold mbind, M_bind.
  destruct (add_book_returns (generate_data.drawn_book b) w)
    as (ok & w1 & Hadd).
  rewrite Hadd.
  destruct (IH (if ok then acc ++ [generate_data.isbn b] else acc) w1)
    as (isbns & Hret & Hin & Hsub).
  { intros i Hi.
    assert (w1 = (BookRepository.add_book (generate_data.drawn_book b) w).2)
      as -> by by rewrite Hadd.
    destruct ok.
    - apply elem_of_app in Hi as [Hi| ->%list_elem_of_singleton].
      + apply (add_book_keeps_books _ i); auto.
      + apply (add_book_true_stored (generate_data.drawn_book b)).
        by rewrite Hadd.
    - apply (add_book_keeps_books _ i); auto. }
  exists isbns. split; [done|]. split; [done|].
  intros i Hi. destruct (Hsub i Hi) as [Hacc'|Hd].
  - destruct ok; [|by left].
    apply elem_of_app in Hacc' as [?| ->%list_elem_of_singleton]; [by left|].
    right. simpl. apply list_elem_of_here.
  - right. simpl. by apply list_elem_of_further.
Qed.

(** X20: Whatever fails, [generate_books] returns, and the ISBNs it returns are
    drawn ISBNs that [books_by_id] holds at the end. *)
Theorem generate_books_returns_stored_isbns draws w :
  ∃ isbns,
    (generate_data.generate_books draws w).1 = Returned isbns
    ∧ ∀ i, i ∈ isbns →
        is_Some (books_by_id (db (generate_data.generate_books draws w).2)
                   !! i)
        ∧ i ∈ generate_data.isbn <$> draws.
Proof.
  destruct (generate_books_loop_stored draws [] w) as (isbns & H1 & H2 & H3).
  { intros i Hi. by apply elem_of_nil in Hi. }
  exists isbns. split; [done|]. intros i Hi. split; [by apply H2|].
  destruct (H3 i Hi) as [Hnil|?]; [by apply elem_of_nil in Hnil|done].
Qed.

(** [create_user], by the faults in stock for its two inserts. *)
Lemma create_user_run uid reg e f l p a w :
  UserRepository.create_user uid reg e f l p a w
  = match first_fault 2 (faults w) with
    | Some msg =>
        (Raised (DriverError msg),
         (UserRepository.create_user uid reg e f l p a w).2)
    | None =>
        (Returned uid,
         World (with_users_by_email
                  <[e := EmailRow (Some uid) (Some f) (Some l) (Some reg)]>
                  (with_users_by_id
                     <[uid := UserRow (Some e) (Some f) (Some l) (Some p)
                                (Some a) (Some reg) (Some 0) (Some 0)]>
                     (db w)))
               (drop 2 (faults w)))
    end.
Proof.
  destruct w as [d fs]. destruct fs as [|[m|] [|[m'|] fs]]; reflexivity.
Qed.

Lemma first_fault_add a b fs :
  first_fault (a + b) fs
  = match first_fault a fs with
    | Some msg => Some msg
    | None => first_fault b (drop a fs)
    end.
Proof.
  revert fs. induction a as [|a IH]; intros fs; [done|].
  destruct fs as [|[m|] fs]; simpl.
  - change (first_fault (S (a + b)) []) with (@None string).
    change (first_fault (S a) []) with (@None string).
    by destruct b.
  - done.
  - change (first_fault (S (a + b)) (None :: fs))
      with (first_fault (a + b) fs).
    change (first_fault (S a) (None :: fs)) with (first_fault a fs).
    apply IH.
Qed.

Lemma generate_users_loop_run draws acc w :
  match first_fault (2 * length draws) (faults w) with
  | Some msg =>
      (generate_data.generate_users_loop draws acc w).1
        = Raised (DriverError msg)
  | None =>
      (generate_data.generate_users_loop draws acc w).1
        = Returned (acc ++ (generate_data.user_id <$> draws))
      ∧ ∀ u, u ∈ generate_data.user_id <$> draws ∨
             is_Some (users_by_id (db w) !! u) →
          is_Some
            (users_by_id
               (db (generate_data.generate_users_loop draws acc w).2) !! u)
  end.
Proof.
  revert acc w. induction draws as [|u draws IH]; intros acc w.
  { simpl. change (first_fault 0 (faults w)) with (@None string).
    rewrite app_nil_r. split; [done|].
    intros x [Hx|Hx]; [by apply elem_of_nil in Hx|done]. }
  replace (2 * length (u :: draws))%nat with (2 + 2 * length draws)%nat
    by (simpl; lia).
  rewrite first_fault_add. simpl generate_data.generate_users_loop.
  unfold mbind, M_bind. rewrite create_user_run.
  destruct (first_fault 2 (faults w)) as [msg|] eqn:Hf; [done|].
  specialize (IH (acc ++ [generate_data.user_id u])
                (World
                   (with_users_by_email
                      <[generate_data.email u :=
                          EmailRow (Some (generate_data.user_id u))
                            (Some (generate_data.first u))
                            (Some (generate_data.last u))
                            (Some (generate_data.registration_date u))]>
                      (with_users_by_id
                         <[generate_data.user_id u :=
                             UserRow (Some (generate_data.email u))
                               (Some (generate_data.first u))
                               (Some (generate_data.last u))
                               (Some (generate_data.phone u))
                               (Some (generate_data.address u))
                               (Some (generate_data.registration_date u))
                               (Some 0) (Some 0)]>
                         (db w)))
                   (drop 2 (faults w)))).
  simpl faults in IH.
  destruct (first_fault (2 * length draws) (drop 2 (faults w)));
    [done|].
  destruct IH as [IH1 IH2]. split.
  - rewrite IH1. by rewrite <-app_assoc.
  - intros x Hx. apply IH2. simpl.
    destruct (decide (x = generate_data.user_id u)) as [->|Hne].
    + right. rewrite lookup_insert_eq. by eexists.
    + rewrite lookup_insert_ne by done.
      destruct Hx as [[?|?]%elem_of_cons|?]; [done|by left|by right].
Qed.

(** X21: [generate_users] creates the patrons in the order drawn and returns
    their identifiers, each of them then in [users_by_id]; the first
    insert that fails makes it raise, the patrons created before staying. *)
Theorem generate_users_all_or_raise draws w :
  match first_fault (2 * length draws) (faults w) with
  | Some msg =>
      (generate_data.generate_users draws w).1 = Raised (DriverError msg)
  | None =>
      (generate_data.generate_users draws w).1
        = Returned (generate_data.user_id <$> draws)
      ∧ ∀ u, u ∈ generate_data.user_id <$> draws →
          is_Some
            (users_by_id (db (generate_data.generate_users draws w).2) !! u)
  end.
Proof.
  pose proof (generate_users_loop_run draws [] w) as H.
  unfold generate_data.generate_users.
  destruct (first_fault (2 * length draws) (faults w)); [done|].
  destruct H as [H1 H2]. split; [done|]. intros u Hu. apply H2. by left.
Qed.

Lemma perform_keeps_no_book i r :
  keeps (λ d, books_by_id d !! i = None) (perform r).
Proof.
  intros w Hnone.
  assert (∀ i' v d, i' ≠ i → books_by_id d !! i = None →
            books_by_id
              (with_books_by_id
                 (upsert blank_book (book_set_available (Some v)) i') d)
              !! i = None) as Hstep.
  { intros i' v d Hne Hd. simpl. unfold upsert.
    by rewrite lookup_insert_ne. }
  destruct r as [now u i' days|now u i']; simpl.
  - destruct (borrow_book_along now u i' days w)
      as [->|(book & copies & user & due & Hbook & _ & _ & _ & _ & Hin)];
      [done|].
    apply (states_along_keeps (λ d, books_by_id d !! i = None) _ _ _)
      with (3 := Hin); [|done].
    unfold borrow_plan. repeat constructor; intros d d' HI Hst;
      statement_inv Hst; try exact HI.
    apply Hstep; [|done]. intros ->. by rewrite Hbook in Hnone.
  - destruct (return_book_along now u i' w)
      as [->|(m & book & user & _ & Hbook & _ & Hin)]; [done|].
    apply (states_along_keeps (λ d, books_by_id d !! i = None) _ _ _)
      with (3 := Hin); [|done].
    unfold return_plan. repeat constructor; intros d d' HI Hst;
      statement_inv Hst; try exact HI.
    apply Hstep; [|done]. intros ->. by rewrite Hbook in Hnone.
Qed.

Lemma perform_keeps_all_in_range r : keeps all_copies_in_range (perform r).
Proof.
  intros w Hall i Hi.
  apply (perform_keeps_copies_in_range i r). apply Hall.
  destruct (books_by_id (db w) !! i) eqn:Hbk; [done|].
  apply (perform_keeps_no_book i r) in Hbk. rewrite Hbk in Hi.
  by destruct Hi.
Qed.

Lemma add_book_keeps_all_in_range book :
  0 ≤ BookRepository.available_copies book
    ≤ BookRepository.total_copies book →
  keeps all_copies_in_range (BookRepository.add_book book).
Proof.
  intros Hrange. unfold BookRepository.add_book. keeps_steps.
  all: intros d d' HI [= <-]; try exact HI.
  intros i Hi. unfold copies_in_range. simpl in *.
  destruct (decide (i = BookRepository.isbn book)) as [->|Hne].
  - rewrite lookup_insert_eq. simpl. by apply bool_decide_eq_true.
  - rewrite lookup_insert_ne in Hi |- * by done. by apply HI.
Qed.

Lemma create_user_keeps_all_in_range uid reg e f l p a :
  keeps all_copies_in_range (UserRepository.create_user uid reg e f l p a).
Proof.
  unfold UserRepository.create_user. keeps_steps.
  all: intros d d' HI [= <-]; exact HI.
Qed.

(** X22: Books drawn with a total that is not negative, as [generate_books]
    draws them, leave every book of [books_by_id] with its copies within
    its total at the end of [main], whichever of its writes fail. *)
Theorem generated_copies_in_range books users borrows w :
  Forall (λ b, 0 ≤ generate_data.total b) books →
  all_copies_in_range (db w) →
  all_copies_in_range (db (generate_data.main books users borrows w).2).
Proof.
  intros Hbooks. revert w.
  assert (∀ draws acc,
            Forall (λ b, 0 ≤ generate_data.total b) draws →
            keeps all_copies_in_range
              (generate_data.generate_books_loop draws acc)) as Hgb.
  { induction draws as [|b draws IH]; intros acc Hd; simpl;
      [apply keeps_mret|].
    apply Forall_cons in Hd as [Hb Hd].
    apply keeps_bind; [|intros ok; by apply IH].
    apply add_book_keeps_all_in_range. simpl. lia. }
  assert (∀ draws acc,
            keeps all_copies_in_range
              (generate_data.generate_users_loop draws acc)) as Hgu.
  { induction draws as [|u draws IH]; intros acc; simpl;
      [apply keeps_mret|].
    apply keeps_bind; [|intros uid; by apply IH].
    apply create_user_keeps_all_in_range. }
  assert (∀ draws days,
            keeps all_copies_in_range
              (generate_data.generate_borrows_loop draws days)) as Hgl.
  { induction draws as [|[[now u] i] draws IH]; intros days; simpl;
      [apply keeps_mret|].
    apply keeps_bind; [|intros res; by apply IH].
    apply (perform_keeps_all_in_range (Borrow now u i days)). }
  unfold generate_data.main, generate_data.generate_books,
    generate_data.generate_users, generate_data.generate_borrows.
  apply keeps_bind; [by apply Hgb|]. intros isbns.
  apply keeps_bind; [by apply Hgu|]. intros user_ids.
  case_bool_decide; [apply keeps_mret | apply Hgl].
Qed.

Lemma generated_copies_in_range_witness :
  let books :=
    [ {| generate_data.isbn := "978-1-100000-10-1";
         generate_data.title := "Les vagues";
         generate_data.author := "Anne Martin";
         generate_data.category := "Science";
         generate_data.publisher := "Seuil";
         generate_data.year := 1999;
         generate_data.total := 1;
         generate_data.desc := "" |} ] in
  let users :=
    [ {| generate_data.user_id := reader;
         generate_data.registration_date := 1000;
         generate_data.email := "anne@example.org";
         generate_data.first := "Anne";
         generate_data.last := "MARTIN";
         generate_data.phone := "0102030405";
         generate_data.address := "1 rue du Port, Brest" |} ] in
  let borrows := λ (us : list UUID) (bs : list string),
    [ (2000, reader, "978-1-100000-10-1");
      (3000, reader, "978-1-100000-10-1") ] in
  all_copies_in_range
    (db (generate_data.main books users borrows
           (World shelf [None; None; None; None; None; None;
                         Some "timeout"])).2).
Proof.
  intros books users borrows.
  apply (generated_copies_in_range books users borrows).
  - repeat constructor. simpl. lia.
  - intros i [bk Hbk]. cbn [db books_by_id shelf] in Hbk.
    apply lookup_singleton_Some in Hbk as [<- _].
    vm_compute; reflexivity.
Defined.

(** ** The forms of the web application *)
Lemma borrow_book_patron_found now u i days w res w' :
  is_Some (users_by_id (db w) !! u) →
  borrow_book now u i days w = (Returned res, w') →
  message res ∈ ["Livre introuvable"; "Aucune copie disponible";
                 "Emprunt effectué"]
  ∨ ∃ e, message res = "Erreur emprunt: " +:+ exn_str e.
Proof.
  intros [user Huser] Hres.
  destruct (books_by_id (db w) !! i) as [book|] eqn:Hbook.
  2: { rewrite borrow_book_no_book in Hres by done.
       injection Hres as <- _. left. set_solver. }
  destruct (decide (0 < or0 (available_copies book))) as [Hpos|Hno].
  2: { rewrite (borrow_book_no_copies _ _ _ _ _ book) in Hres by done.
       injection Hres as <- _. left. set_solver. }
  destruct (available_copies book) as [copies|] eqn:Hcopies; [|done].
  simpl in Hpos.
  destruct (add_days now days) as [e|due] eqn:Hadd.
  { unfold borrow_book in Hres. rewrite bind_query in Hres.
    unfold _sel_book in Hres. rewrite Hbook, Hcopies in Hres.
    rewrite bool_decide_eq_false_2 in Hres by lia.
    rewrite bind_query in Hres. unfold _sel_user in Hres.
    by rewrite Huser, Hadd in Hres. }
  rewrite (borrow_book_runs_plan _ _ _ _ _ book copies user due) in Hres
    by done.
  apply try_except_Returned in Hres as [Hres|(e & w1 & _ & Hres)].
  - destruct (run_plan_cases
                (mret {| ok := true; message := "Emprunt effectué" |})
                (borrow_plan now u i book user copies due) w)
      as [(d' & _ & _ & Hrun)|(e & w1 & Hrun & _)];
      rewrite Hrun in Hres; [|done].
    injection Hres as <- _. left. set_solver.
  - injection Hres as <- _. right. by exists e.
Qed.

Lemma return_book_patron_found now u i w res w' :
  is_Some (users_by_id (db w) !! u) →
  return_book now u i w = (Returned res, w') →
  message res ∈ ["Aucun emprunt actif trouvé pour ce livre";
                 "Livre introuvable (books_by_id)"; "Livre retourné"]
  ∨ ∃ e, message res = "Erreur retour: " +:+ exn_str e.
Proof.
  intros [user Huser] Hres.
  destruct (find (λ r, bool_decide (isbn r = i))
              (_sel_active_by_user u (db w))) as [m|] eqn:Hfind.
  2: { unfold return_book in Hres. rewrite bind_query, Hfind in Hres.
       injection Hres as <- _. left. set_solver. }
  destruct (books_by_id (db w) !! i) as [book|] eqn:Hbook.
  2: { unfold return_book in Hres. rewrite bind_query, Hfind in Hres.
       rewrite bind_query in Hres. unfold _sel_book in Hres.
       rewrite Hbook in Hres. injection Hres as <- _. left. set_solver. }
  rewrite (return_book_runs_plan _ _ _ _ m book user) in Hres by done.
  apply try_except_Returned in Hres as [Hres|(e & w1 & _ & Hres)].
  - destruct (run_plan_cases
                (mret {| ok := true; message := "Livre retourné" |})
                (return_plan now u i book user (borrow_date m)) w)
      as [(d' & _ & _ & Hrun)|(e & w1 & Hrun & _)];
      rewrite Hrun in Hres; [|done].
    injection Hres as <- _. left. set_solver.
  - injection Hres as <- _. right. by exists e.
Qed.

Lemma bind_run {A B} (m : M A) (f : A → M B) w :
  (m ≫= f) w
  = match m w with
    | (Returned a, w1) => f a w1
    | (Raised e, w1) => (Raised e, w1)
    end.
Proof. reflexivity. Qed.

Lemma web_borrows_found (str_strip : string → string) now action email
    isbn_ w row u msgs :
  users_by_email (db w) !! str_strip email = Some row →
  e_user_id row = Some u →
  is_Some (users_by_id (db w) !! u) →
  (web_app.borrows str_strip now action email isbn_ w).1 = Returned msgs →
  ∀ m c, (m, c) ∈ msgs →
    m ≠ "Utilisateur introuvable (email)" ∧ m ≠ "Utilisateur introuvable".
Proof.
  intros Hrow Hu Huser Hrun m c Hin.
  destruct (web_app.borrows str_strip now action email isbn_ w)
    as [o w'] eqn:Hrun'.
  simpl in Hrun. subst o. rename Hrun' into Hrun.
  unfold web_app.borrows, UserRepository.get_user_id_by_email in Hrun.
  unfold mbind at 1 in Hrun. unfold M_bind in Hrun.
  rewrite bind_query in Hrun. rewrite Hrow, Hu in Hrun. simpl in Hrun.
  repeat case_bool_decide.
  - apply bind_Returned in Hrun as (res & w1 & Hb & [= <- <-]).
    apply list_elem_of_singleton in Hin. inversion Hin; subst m c.
    destruct (borrow_book_patron_found _ _ _ _ _ _ _ Huser Hb)
      as [Hm|[e Hm]]; [|by rewrite Hm].
    set_unfold in Hm. destruct Hm as [->| [->| [->|[]]]]; done.
  - apply bind_Returned in Hrun as (res & w1 & Hb & [= <- <-]).
    apply list_elem_of_singleton in Hin. inversion Hin; subst m c.
    destruct (return_book_patron_found _ _ _ _ _ _ Huser Hb)
      as [Hm|[e Hm]]; [|by rewrite Hm].
    set_unfold in Hm. destruct Hm as [->| [->| [->|[]]]]; done.
  - injection Hrun as <- _. by apply elem_of_nil in Hin.
Qed.

(** X23: The form of [/borrows] with an email that [users_by_email] does not
    have flashes the error of the form and leaves the store and the faults
    in stock as they were, whatever the action and the ISBN. *)
Theorem web_borrows_unknown_email (str_strip : string → string) now action
    email isbn_ w :
  users_by_email (db w) !! str_strip email = None →
  web_app.borrows str_strip now action email isbn_ w
  = (Returned [("Utilisateur introuvable (email)", "error")], w).
Proof.
  intros Hnone. unfold web_app.borrows, UserRepository.get_user_id_by_email.
  unfold mbind at 1. unfold M_bind. rewrite bind_query. by rewrite Hnone.
Qed.

Lemma web_borrows_unknown_email_witness :
  let w := World shelf [Some "timeout"] in
  web_app.borrows strip 2000 "borrow" " nobody@example.com "
    "978-0-123456-78-9" w
  = (Returned [("Utilisateur introuvable (email)", "error")], w).
Proof.
  intros w.
  apply (web_borrows_unknown_email strip 2000 "borrow"
           " nobody@example.com " "978-0-123456-78-9" w).
  vm_compute; reflexivity.
Defined.

(** X24: In a store whose emails resolve, the form of [/borrows] never flashes
    either of the two messages for a patron that is not found: an email
    that is known always leads to a patron that the engine finds. *)
Theorem web_borrows_known_email_finds_patron (str_strip : string → string)
    now action email isbn_ w msgs :
  emails_resolve (db w) →
  is_Some (users_by_email (db w) !! str_strip email) →
  (web_app.borrows str_strip now action email isbn_ w).1 = Returned msgs →
  ∀ m c, (m, c) ∈ msgs →
    m ≠ "Utilisateur introuvable (email)" ∧ m ≠ "Utilisateur introuvable".
Proof.
  intros Hres [row Hrow]. destruct (Hres _ _ Hrow) as (u & Hu & Huser).
  by apply (web_borrows_found _ _ _ _ _ _ row u).
Qed.

Lemma web_borrows_known_email_finds_patron_witness :
  let w := World shelf [] in
  let msgs := [("Aucun emprunt actif trouvé pour ce livre", "error")] in
  (web_app.borrows strip 2000 "return" " noe@example.com "
     "978-0-123456-78-9" w).1 = Returned msgs
  ∧ ∀ m c, (m, c) ∈ msgs →
      m ≠ "Utilisateur introuvable (email)" ∧ m ≠ "Utilisateur introuvable".
Proof.
  intros w msgs.
  assert ((web_app.borrows strip 2000 "return" " noe@example.com "
             "978-0-123456-78-9" w).1 = Returned msgs) as Hrun
    by (vm_compute; reflexivity).
  split; [exact Hrun|].
  apply (web_borrows_known_email_finds_patron strip 2000 "return"
           " noe@example.com " "978-0-123456-78-9" w msgs).
  - exact emails_resolve_shelf.
  - evaluated.
  - exact Hrun.
Defined.

(** X25: A patron registered through [/users/register] is found by [/borrows]
    under the email as it was typed, spaces around it included, and the
    identifier flashed at registration is the one the engine is called
    with: neither message for a patron that is not found is flashed. *)
Theorem web_register_then_borrows (str_strip : string → string)
    (uuid_str : UUID → string) user_id now email first_name last_name w
    now' action isbn_ flashed msgs :
  let registered :=
    web_app.users_register str_strip uuid_str user_id now email first_name
      last_name w in
  registered.1 = Returned flashed →
  (web_app.borrows str_strip now' action email isbn_ registered.2).1
    = Returned msgs →
  flashed = [("Utilisateur créé: " +:+ uuid_str user_id, "success")]
  ∧ UserRepository.get_user_id_by_email (str_strip email) registered.2
    = (Returned (Some user_id), registered.2)
  ∧ ∀ m c, (m, c) ∈ msgs →
      m ≠ "Utilisateur introuvable (email)" ∧ m ≠ "Utilisateur introuvable".
Proof.
  intros registered Hreg Hrun. subst registered.
  unfold web_app.users_register in *.
  rewrite bind_run, create_user_run in Hreg, Hrun |- *.
  destruct (first_fault 2 (faults w)) as [msg|]; [done|].
  simpl in Hreg. injection Hreg as <-. split; [done|].
  cbn [snd] in *. split.
  - unfold UserRepository.get_user_id_by_email. rewrite bind_query.
    simpl. by rewrite lookup_insert_eq.
  - eapply web_borrows_found; [| |..|exact Hrun].
    + simpl. apply lookup_insert_eq.
    + done.
    + simpl. rewrite lookup_insert_eq. by eexists.
Qed.

Lemma web_register_then_borrows_witness :
  let uuid_str := λ _ : UUID, "00000000-0000-0000-0000-000000000009" in
  let registered :=
    web_app.users_register strip uuid_str 9%N 1500 " lea@example.com "
      "Lea" "Marchand" (World shelf []) in
  let msgs := [("Emprunt effectué", "success")] in
  (web_app.borrows strip 2000 "borrow" " lea@example.com "
     "978-0-123456-78-9" registered.2).1 = Returned msgs
  ∧ UserRepository.get_user_id_by_email (strip " lea@example.com ")
      registered.2
    = (Returned (Some 9%N), registered.2).
Proof.
  intros uuid_str registered msgs.
  assert ((web_app.borrows strip 2000 "borrow" " lea@example.com "
             "978-0-123456-78-9" registered.2).1 = Returned msgs) as Hrun
    by (vm_compute; reflexivity).
  split; [exact Hrun|].
  refine (proj1 (proj2 (web_register_then_borrows strip uuid_str 9%N 1500
                   " lea@example.com " "Lea" "Marchand" (World shelf [])
                   2000 "borrow" "978-0-123456-78-9"
                   [("Utilisateur créé: " +:+ uuid_str 9%N, "success")]
                   msgs _ Hrun))).
  vm_compute; reflexivity.
Defined.

(** ** Reading a primary key *)
Section report.
Import generate_analysis_report.

Lemma string_app_cons a (s t : string) :
  String a s +:+ t = String a (s +:+ t).
Proof. reflexivity. Qed.

Lemma string_app_nil_l (s : string) : "" +:+ s = s.
Proof. reflexivity. Qed.

Lemma string_app_nil_r (s : string) : s +:+ "" = s.
Proof.
  induction s as [|a s IH]; [done|]. by rewrite string_app_cons, IH.
Qed.

Lemma string_app_assoc (s t u : string) : (s +:+ t) +:+ u = s +:+ t +:+ u.
Proof.
  induction s as [|a s IH]; [done|]. by rewrite !string_app_cons, IH.
Qed.

Lemma rev_app_app (s t : string) : String.rev_app s t = String.rev s +:+ t.
Proof.
  unfold String.rev. revert t. induction s as [|a s IH]; intros t; [done|].
  simpl. rewrite IH, (IH (String a "")). by rewrite string_app_assoc.
Qed.

Lemma rev_cons a (s : string) :
  String.rev (String a s) = String.rev s +:+ String a "".
Proof. unfold String.rev at 1. simpl. apply rev_app_app. Qed.

Lemma rev_snoc (s : string) a :
  String.rev (s +:+ String a "") = String a (String.rev s).
Proof.
  induction s as [|b s IH]; [done|].
  by rewrite string_app_cons, !rev_cons, IH.
Qed.

Lemma rev_rev (s : string) : String.rev (String.rev s) = s.
Proof.
  induction s as [|a s IH]; [done|]. by rewrite rev_cons, rev_snoc, IH.
Qed.

Lemma rev_app (s t : string) :
  String.rev (s +:+ t) = String.rev t +:+ String.rev s.
Proof.
  induction s as [|a s IH].
  - by rewrite string_app_nil_l, string_app_nil_r.
  - by rewrite string_app_cons, !rev_cons, IH, string_app_assoc.
Qed.

(** *** [strip] *)
Lemma lstrip_spaces sp s : spaces sp = true → lstrip (sp +:+ s) = lstrip s.
Proof.
  induction sp as [|a sp IH]; [done|]. rewrite string_app_cons. simpl.
  intros [Ha Hsp]%andb_prop. rewrite Ha. by apply IH.
Qed.

Lemma lstrip_first a s : is_space a = false → lstrip (String a s) = String a s.
Proof. intros Ha. simpl. by rewrite Ha. Qed.

(** A text that begins and ends with a character that is not white space
    is its own [strip]. *)
Lemma strip_edged s : edged s → strip s = s.
Proof.
  intros (a & t & b & u & Hs & Ha & Hr & Hb). unfold strip.
  rewrite Hs at 1. rewrite lstrip_first by done. rewrite <-Hs.
  rewrite Hr, lstrip_first by done. by rewrite <-Hr, rev_rev.
Qed.

Lemma strip_spaces_edged sp s :
  spaces sp = true → edged s → strip (sp +:+ s) = s.
Proof.
  intros Hsp Hs. unfold strip. rewrite lstrip_spaces by done.
  by apply strip_edged.
Qed.

Lemma edged_app s t : edged s → edged t → edged (s +:+ t).
Proof.
  intros (a & s' & _ & _ & -> & Ha & _ & _) (_ & _ & b & u & _ & _ & Hr & Hb).
  exists a, (s' +:+ t), b, (u +:+ String.rev (String a s')).
  split; [done|]. split; [done|]. split; [|done].
  by rewrite rev_app, Hr.
Qed.

Lemma edged_app_mid s m t : edged s → edged t → edged (s +:+ m +:+ t).
Proof.
  intros (a & s' & _ & _ & -> & Ha & _ & _) (_ & _ & b & u & _ & _ & Hr & Hb).
  exists a, (s' +:+ m +:+ t), b,
    (u +:+ String.rev m +:+ String.rev (String a s')).
  split; [done|]. split; [done|]. split; [|done].
  by rewrite !rev_app, Hr, string_app_assoc.
Qed.

Lemma plain_chars_app s t :
  plain_chars (s +:+ t) = plain_chars s && plain_chars t.
Proof.
  induction s as [|a s IH]; [done|].
  rewrite string_app_cons. simpl. by rewrite IH, andb_assoc.
Qed.

Lemma plain_chars_rev s : plain_chars (String.rev s) = plain_chars s.
Proof.
  induction s as [|a s IH]; [done|].
  rewrite rev_cons, plain_chars_app, IH. simpl.
  rewrite andb_true_r. apply andb_comm.
Qed.

Lemma plain_char_space a : plain_char a = true → is_space a = false.
Proof.
  unfold plain_char. intros [H _]%andb_prop. by apply negb_true_iff in H.
Qed.

Lemma plain_name_edged s : plain_name s → edged s.
Proof.
  intros [Hne Hpl]. destruct s as [|a t]; [done|].
  pose proof Hpl as Hrev. rewrite <-plain_chars_rev in Hrev.
  destruct (String.rev (String a t)) as [|b u] eqn:Hr.
  { apply (f_equal String.rev) in Hr. by rewrite rev_rev in Hr. }
  exists a, t, b, u. simpl in Hpl, Hrev.
  apply andb_prop in Hpl as [Ha _]. apply andb_prop in Hrev as [Hb _].
  split; [done|]. split; [by apply plain_char_space|].
  split; [done|]. by apply plain_char_space.
Qed.

Lemma edged_single a : is_space a = false → edged (String a "").
Proof. intros Ha. by exists a, "", a, "". Qed.

Lemma edged_nonempty s : edged s → nonempty s = true.
Proof. by intros (a & t & _ & _ & -> & _). Qed.

(** *** The loop of [_split_top_level_commas] *)
Lemma split_scan_app s t st :
  split_scan (s +:+ t) st = split_scan t (split_scan s st).
Proof.
  revert st. induction s as [|a s IH]; intros st; [done|].
  rewrite string_app_cons. apply IH.
Qed.

(** What the loop has split off before is left as it is. *)
Lemma split_scan_parts s parts0 parts buf depth :
  split_scan s (parts0 ++ parts, buf, depth)
  = ((parts0 ++ (split_scan s (parts, buf, depth)).1.1),
     (split_scan s (parts, buf, depth)).1.2,
     (split_scan s (parts, buf, depth)).2).
Proof.
  revert parts buf depth. induction s as [|a s IH]; intros parts buf depth;
    [done|].
  simpl. repeat case_match; simplify_eq/=; rewrite <-?app_assoc; apply IH.
Qed.

(** Characters other than a comma and the parentheses go to the buffer. *)
Lemma split_scan_no_mark s parts buf depth :
  no_mark s →
  split_scan s (parts, buf, depth) = (parts, buf +:+ s, depth).
Proof.
  revert buf. induction s as [|a s IH]; intros buf (H1 & H2 & H3).
  { by rewrite string_app_nil_r. }
  simpl in *.
  apply orb_false_elim in H1 as [H1 H1'], H2 as [H2 H2'], H3 as [H3 H3'].
  rewrite H1, H2, H3. simpl. rewrite IH by done.
  by rewrite string_app_assoc.
Qed.

(** Within parentheses a comma goes to the buffer too. *)
Lemma split_scan_deep s parts buf depth :
  contains "(" s = false → contains ")" s = false → 0 < depth →
  split_scan s (parts, buf, depth) = (parts, buf +:+ s, depth).
Proof.
  revert buf. induction s as [|a s IH]; intros buf H1 H2 Hd.
  { by rewrite string_app_nil_r. }
  simpl in *.
  apply orb_false_elim in H1 as [H1 H1'], H2 as [H2 H2'].
  rewrite H1, H2. rewrite (bool_decide_eq_false_2 (depth = 0)) by lia.
  rewrite andb_false_r. rewrite IH by done. by rewrite string_app_assoc.
Qed.

Lemma split_top_level_commas_scan s parts buf depth :
  split_scan s ([], "", 0) = (parts, buf, depth) →
  _split_top_level_commas s
  = filter (λ p, nonempty p = true)
      (if nonempty buf then parts ++ [strip buf] else parts).
Proof. intros H. unfold _split_top_level_commas. by rewrite H. Qed.

(** A comma met at depth 0 separates what is before it from what is
    after it. *)
Lemma split_top_level_commas_app s t :
  depth_after s 0 = 0 →
  _split_top_level_commas (s +:+ "," +:+ t)
  = _split_top_level_commas s ++ _split_top_level_commas t.
Proof.
  unfold depth_after. intros Hd.
  destruct (split_scan s ([], "", 0)) as [[parts1 buf1] d1] eqn:Hs.
  destruct (split_scan t ([], "", 0)) as [[parts2 buf2] d2] eqn:Ht.
  simpl in Hd. subst d1.
  rewrite (split_top_level_commas_scan s _ _ _ Hs).
  rewrite (split_top_level_commas_scan t _ _ _ Ht).
  rewrite (split_top_level_commas_scan (s +:+ "," +:+ t)
             (parts1 ++ [strip buf1] ++ parts2) buf2 d2).
  2: { rewrite split_scan_app, Hs, string_app_cons, string_app_nil_l.
       change (split_scan (String "," t) (parts1, buf1, 0))
         with (split_scan t (parts1 ++ [strip buf1], "", 0)).
       rewrite <-(app_nil_r (parts1 ++ [strip buf1])).
       rewrite split_scan_parts, Ht. simpl. by rewrite <-app_assoc. }
  assert (filter (λ p, nonempty p = true) [strip buf1]
          = filter (λ p, nonempty p = true)
              (if nonempty buf1 then [strip buf1] else [])) as Hone.
  { by destruct buf1. }
  destruct (nonempty buf2), (nonempty buf1) eqn:Hb1;
    rewrite ?filter_app, ?Hone, ?Hb1, ?filter_app, <-?app_assoc;
    simpl; rewrite ?filter_nil, ?app_nil_r; try done.
Qed.

Lemma contains_app c s t : contains c (s +:+ t) = contains c s || contains c t.
Proof.
  induction s as [|a s IH]; [done|].
  rewrite string_app_cons. simpl. by rewrite IH, orb_assoc.
Qed.

Lemma spaces_contains c sp :
  is_space c = false → spaces sp = true → contains c sp = false.
Proof.
  intros Hc. induction sp as [|a sp IH]; [done|]. simpl.
  intros [Ha Hsp]%andb_prop. rewrite IH by done.
  rewrite bool_decide_eq_false_2; [done|]. intros ->. congruence.
Qed.

Lemma plain_contains c s :
  plain_char c = false → plain_chars s = true → contains c s = false.
Proof.
  intros Hc. induction s as [|a s IH]; [done|]. simpl.
  intros [Ha Hs]%andb_prop. rewrite IH by done.
  rewrite bool_decide_eq_false_2; [done|]. intros ->. congruence.
Qed.

Lemma more_names_contains c sp names :
  c ≠ ","%char → is_space c = false → plain_char c = false →
  spaces sp = true → Forall plain_name names →
  contains c (more_names sp names) = false.
Proof.
  intros Hc Hsp Hpl Hspaces. induction 1 as [|n names [_ Hn] _ IH]; [done|].
  simpl. rewrite !contains_app, IH, (spaces_contains c sp) by done.
  rewrite (plain_contains c n) by done. simpl.
  by rewrite bool_decide_eq_false_2.
Qed.

Lemma item_padded sp n : spaces sp = true → plain_name n → item (sp +:+ n).
Proof.
  intros Hsp Hn. split.
  - rewrite split_scan_no_mark; [done|]. destruct Hn as [_ Hn].
    repeat split; rewrite contains_app, spaces_contains, plain_contains;
      done.
  - rewrite strip_spaces_edged by auto using plain_name_edged.
    by apply edged_nonempty, plain_name_edged.
Qed.

Lemma item_plain n : plain_name n → item n.
Proof. intros Hn. by apply (item_padded "" n). Qed.

Lemma split_top_level_commas_item h :
  item h → _split_top_level_commas h = [strip h].
Proof.
  intros [Hscan Hne].
  rewrite (split_top_level_commas_scan _ _ _ _ Hscan).
  destruct h as [|a h]; [done|]. simpl nonempty. cbn [app].
  by rewrite filter_cons_True, filter_nil.
Qed.

Lemma split_top_level_commas_names sp names h :
  spaces sp = true → Forall plain_name names → item h →
  _split_top_level_commas (h +:+ more_names sp names) = strip h :: names.
Proof.
  intros Hsp Hnames. revert h.
  induction Hnames as [|n names Hn _ IH]; intros h Hh.
  { simpl. rewrite string_app_nil_r. by apply split_top_level_commas_item. }
  simpl. rewrite split_top_level_commas_app.
  2: { unfold depth_after. by rewrite (proj1 Hh). }
  rewrite split_top_level_commas_item by done. simpl. f_equal.
  rewrite <-string_app_assoc, IH by by apply item_padded.
  by rewrite strip_spaces_edged by auto using plain_name_edged.
Qed.

Lemma edged_more_names sp names h :
  edged h → Forall plain_name names → edged (h +:+ more_names sp names).
Proof.
  intros Hh Hnames. revert h Hh.
  induction Hnames as [|n names Hn _ IH]; intros h Hh.
  { simpl. by rewrite string_app_nil_r. }
  simpl.
  replace (h +:+ "," +:+ sp +:+ n +:+ more_names sp names)
    with ((h +:+ ("," +:+ sp) +:+ n) +:+ more_names sp names)
    by by rewrite !string_app_assoc.
  apply IH. apply edged_app_mid; [done|]. by apply plain_name_edged.
Qed.

Lemma clean_ident_plain n : plain_name n → _clean_ident n = n.
Proof.
  intros Hn. unfold _clean_ident.
  rewrite strip_edged by by apply plain_name_edged.
  destruct Hn as [Hne Hn]. destruct n as [|a n]; [done|].
  rewrite (plain_contains "." (String a n)) by done.
  simpl in Hn |- *. apply andb_prop in Hn as [Ha _].
  rewrite bool_decide_eq_false_2; [done|]. intros ->. done.
Qed.

Lemma clean_ident_names names :
  Forall plain_name names → _clean_ident <$> names = names.
Proof.
  induction 1 as [|n names Hn _ IH]; [done|].
  by rewrite fmap_cons, IH, clean_ident_plain.
Qed.

(** A group in parentheses, with no parentheses inside, is one item. *)
Lemma item_group s :
  contains "(" s = false → contains ")" s = false →
  item ("(" +:+ s +:+ ")") ∧ edged ("(" +:+ s +:+ ")").
Proof.
  intros Hl Hr.
  assert (edged ("(" +:+ s +:+ ")")) as Hedged.
  { by apply edged_app_mid; apply edged_single. }
  split; [|done]. split.
  - rewrite string_app_cons, string_app_nil_l.
    change (split_scan (String "(" (s +:+ ")")) ([], "", 0))
      with (split_scan (s +:+ ")") ([], "(", 1)).
    rewrite split_scan_app, split_scan_deep by (done || lia).
    cbn [split_scan split_step].
    rewrite (bool_decide_eq_false_2 (")"%char = "("%char)) by done.
    rewrite (bool_decide_eq_true_2 (")"%char = ")"%char)) by done.
    rewrite (bool_decide_eq_false_2 (")"%char = ","%char)) by done.
    simpl. by rewrite string_app_assoc.
  - rewrite strip_edged by done. by apply edged_nonempty.
Qed.

Lemma inner_group s : inner ("(" +:+ s +:+ ")") = s.
Proof.
  rewrite string_app_cons, string_app_nil_l. unfold inner.
  by rewrite rev_snoc, rev_rev.
Qed.

Lemma endswith_snoc s a : endswith a (s +:+ String a "") = true.
Proof.
  unfold endswith. rewrite rev_snoc. simpl. by apply bool_decide_eq_true.
Qed.

(** X26: A comma at depth 0 separates what is before it from what is after it,
    whatever the two sides are. *)
Theorem top_level_comma_separates s t :
  depth_after s 0 = 0 →
  _split_top_level_commas (s +:+ "," +:+ t)
  = _split_top_level_commas s ++ _split_top_level_commas t.
Proof. apply split_top_level_commas_app. Qed.

Lemma top_level_comma_separates_witness :
  _split_top_level_commas ("f(a, (b)), g" +:+ "," +:+ " (c, d) ,")
  = _split_top_level_commas "f(a, (b)), g"
    ++ _split_top_level_commas " (c, d) ,".
Proof.
  apply (top_level_comma_separates "f(a, (b)), g" " (c, d) ,").
  vm_compute; reflexivity.
Defined.

(** X27: A group in parentheses that has no parentheses inside is one part,
    commas and all. *)
Theorem parenthesised_group_is_one_part s :
  contains "(" s = false → contains ")" s = false →
  _split_top_level_commas ("(" +:+ s +:+ ")") = ["(" +:+ s +:+ ")"].
Proof.
  intros Hl Hr. destruct (item_group s Hl Hr) as [Hitem Hedged].
  by rewrite split_top_level_commas_item, strip_edged.
Qed.

Lemma parenthesised_group_is_one_part_witness :
  _split_top_level_commas ("(" +:+ "user_id, borrow_date,," +:+ ")")
  = ["(" +:+ "user_id, borrow_date,," +:+ ")"].
Proof.
  apply (parenthesised_group_is_one_part "user_id, borrow_date,,");
    vm_compute; reflexivity.
Defined.

(** X28: A primary key written as the schema writes it is read back: the group
    in parentheses gives the partition keys and what follows it the
    clustering keys; without a group the first name is the partition
    key. *)
Theorem parse_primary_key_written sp p ps cs :
  spaces sp = true → plain_name p →
  Forall plain_name ps → Forall plain_name cs →
  _parse_primary_key
    ("(" +:+ (p +:+ more_names sp ps) +:+ ")" +:+ more_names sp cs)
    = (p :: ps, cs)
  ∧ _parse_primary_key (p +:+ more_names sp cs) = ([p], cs).
Proof.
  intros Hsp Hp Hps Hcs. split.
  - assert (contains "(" (p +:+ more_names sp ps) = false) as Hl.
    { rewrite contains_app, more_names_contains by done.
      by rewrite (plain_contains _ p) by (done || apply Hp). }
    assert (contains ")" (p +:+ more_names sp ps) = false) as Hr.
    { rewrite contains_app, more_names_contains by done.
      by rewrite (plain_contains _ p) by (done || apply Hp). }
    destruct (item_group _ Hl Hr) as [Hitem Hedged].
    set (group := "(" +:+ (p +:+ more_names sp ps) +:+ ")") in *.
    unfold _parse_primary_key.
    replace ("(" +:+ (p +:+ more_names sp ps) +:+ ")" +:+ more_names sp cs)
      with (group +:+ more_names sp cs)
      by (unfold group; by rewrite !string_app_assoc).
    rewrite strip_edged by by apply edged_more_names.
    rewrite (split_top_level_commas_names sp cs group) by done.
    rewrite !(strip_edged group) by done.
    assert (startswith "(" group && endswith ")" group = true) as ->.
    { unfold group. rewrite <-string_app_assoc, endswith_snoc. done. }
    unfold group. rewrite inner_group.
    rewrite strip_edged
      by by apply edged_more_names; [apply plain_name_edged|].
    rewrite (split_top_level_commas_names sp ps p)
      by auto using item_plain.
    rewrite strip_edged by by apply plain_name_edged.
    by rewrite (clean_ident_names (p :: ps)), clean_ident_names
      by (done || by constructor).
  - unfold _parse_primary_key.
    rewrite strip_edged
      by by apply edged_more_names; [apply plain_name_edged|].
    rewrite (split_top_level_commas_names sp cs p) by auto using item_plain.
    rewrite !(strip_edged p) by by apply plain_name_edged.
    assert (startswith "(" p = false) as ->.
    { destruct Hp as [Hne Hp]. destruct p as [|a p]; [done|].
      simpl in Hp |- *. apply andb_prop in Hp as [Ha _].
      rewrite bool_decide_eq_false_2; [done|]. intros ->. done. }
    simpl. by rewrite clean_ident_plain, clean_ident_names.
Qed.

Lemma parse_primary_key_written_witness :
  _parse_primary_key "(user_id, isbn), borrow_date, status"
    = (["user_id"; "isbn"], ["borrow_date"; "status"])
  ∧ _parse_primary_key "user_id, borrow_date, status"
    = (["user_id"], ["borrow_date"; "status"]).
Proof.
  apply (parse_primary_key_written " " "user_id" ["isbn"]
           ["borrow_date"; "status"]).
  - reflexivity.
  - split; [done|reflexivity].
  - repeat constructor; done.
  - repeat constructor; done.
Defined.

Lemma split_last_no_sep c s :
  contains c (default "" (last (split c s))) = false.
Proof.
  induction s as [|a s IH]; [done|]. simpl.
  case_bool_decide as Ha.
  - destruct (split c s) as [|f fs] eqn:Hsplit; [done|]. exact IH.
  - destruct (split c s) as [|f fs] eqn:Hsplit.
    { simpl. by rewrite bool_decide_eq_false_2. }
    destruct fs as [|f' fs]; [|exact IH].
    simpl in *. by rewrite bool_decide_eq_false_2.
Qed.

(** X29: Unless it is written between double quotes, the name that
    [_clean_ident] gives has no dot left: what comes before the last dot
    is dropped. *)
Theorem clean_ident_drops_qualifier s :
  startswith dquote (strip s) && endswith dquote (strip s) = false →
  contains "." (_clean_ident s) = false.
Proof.
  intros Hq. unfold _clean_ident. rewrite Hq.
  destruct (contains "." (strip s)) eqn:Hdot; [|done].
  apply split_last_no_sep.
Qed.

Lemma clean_ident_drops_qualifier_witness :
  _clean_ident " library_system.borrows_by_user " = "borrows_by_user"
  ∧ contains "." (_clean_ident " library_system.borrows_by_user ") = false.
Proof.
  split; [vm_compute; reflexivity|].
  apply (clean_ident_drops_qualifier " library_system.borrows_by_user ").
  vm_compute; reflexivity.
Defined.
End report.
